(** * Constant-time buffer operations of Mbed TLS (library/constant_time.c)

    A shallow embedding of [mbedtls_ct_memcmp], [mbedtls_ct_memmove_left],
    [mbedtls_ct_memcpy_if], [mbedtls_ct_memcpy_offset] and
    [mbedtls_ct_zeroize_if] over a flat byte-addressed memory, together with
    the proofs of their functional, frame and leakage properties.

    Conventions.
    - Machine integers are [Z] with the wrap-around of their C type written
      out ([size_t], [uint32_t], [uchar], [int_of_uint32]).  The model is the
      LP64 one: [size_t] and [mbedtls_ct_uint_t] are 64 bits wide.
    - A pointer is an address in [Z]; [NULL] is address 0.  Memory is a total
      map from addresses to cells, a cell being read as an [unsigned char].
    - C code runs in the monad [M]: it threads the memory and the leakage
      trace (every load, store and branch decision, newest first) and is
      given a loop budget, so that a loop that would spin for ever on the
      machine yields [None] for every budget.
    - The three build switches that change the code of this file are the
      fields of [config]. *)

From Stdlib Require Import ZArith List Bool Lia.
Import ListNotations.
Local Open Scope Z_scope.

(** ** Machine integers *)

Definition SIZE_MAX : Z := 2 ^ 64 - 1.
Definition PTRDIFF_MAX : Z := 2 ^ 63 - 1.
Definition NULL : Z := 0.

(** Conversion to [size_t], [uint32_t] and [unsigned char]. *)
Definition size_t (x : Z) : Z := x mod 2 ^ 64.
Definition uint32_t (x : Z) : Z := x mod 2 ^ 32.
Definition uchar (x : Z) : Z := x mod 2 ^ 8.

(** The cast [(int) diff] of a [uint32_t] (two's complement). *)
Definition int_of_uint32 (x : Z) : Z :=
  if x <? 2 ^ 31 then x else x - 2 ^ 32.

(** Bitwise complement at the width of [mbedtls_ct_uint_t]. *)
Definition lnot64 (x : Z) : Z := Z.lxor x (2 ^ 64 - 1).

(** A value of type [size_t]. *)
Definition is_size_t (x : Z) : Prop := 0 <= x <= SIZE_MAX.

(** The size of a C object: it fits [ptrdiff_t]. *)
Definition object_size (n : Z) : Prop := 0 <= n <= PTRDIFF_MAX.

(** ** Build configuration *)

Record config : Type := mkConfig {
  (** [MBEDTLS_EFFICIENT_UNALIGNED_ACCESS] is defined *)
  MBEDTLS_EFFICIENT_UNALIGNED_ACCESS : bool;
  (** [MBEDTLS_EFFICIENT_UNALIGNED_VOLATILE_ACCESS] is defined *)
  MBEDTLS_EFFICIENT_UNALIGNED_VOLATILE_ACCESS : bool;
  (** byte order of the target *)
  MBEDTLS_IS_BIG_ENDIAN : bool
}.

(** The portable build: no word-wide fast path. *)
Definition portable : config := mkConfig false false false.
(** A little-endian target with both fast paths (AArch64). *)
Definition aarch64 : config := mkConfig true true false.
(** A big-endian target with the fast path of the copy loops. *)
Definition big_endian_fast : config := mkConfig true false true.

(** ** Memory, leakage and the monad of C code *)

Inductive event : Type :=
| EvLoad (addr width : Z)
| EvStore (addr width : Z)
| EvBranch (taken : bool).

Definition mem : Type := Z -> Z.

Record state : Type := mkState {
  st_mem : mem;
  st_trace : list event   (* newest event first *)
}.

(** The byte held at an address. *)
Definition byte_at (m : mem) (p : Z) : Z := uchar (m p).

Definition mem_set (m : mem) (p v : Z) : mem :=
  fun a => if a =? p then uchar v else m a.

Definition log (e : event) (st : state) : state :=
  mkState (st_mem st) (e :: st_trace st).

(** A computation is given the loop budget and the state; [None] means that
    some loop did not finish within the budget. *)
Definition M (A : Type) : Type := nat -> state -> option (A * state).

Definition ret {A} (a : A) : M A := fun _ st => Some (a, st).

Definition bind {A B} (m : M A) (k : A -> M B) : M B :=
  fun fuel st =>
    match m fuel st with
    | Some (a, st') => k a fuel st'
    | None => None
    end.

Declare Scope ct_scope.
Delimit Scope ct_scope with ct.
Notation "x <- c1 ;; c2" := (bind c1 (fun x => c2))
  (at level 61, c1 at next level, right associativity) : ct_scope.
Notation "' pat <- c1 ;; c2" := (bind c1 (fun x => match x with pat => c2 end))
  (at level 61, pat pattern, c1 at next level, right associativity) : ct_scope.
Notation "c1 ;; c2" := (bind c1 (fun _ => c2))
  (at level 61, right associativity) : ct_scope.
Local Open Scope ct_scope.

(** [x = p[0]] for an [unsigned char *p]. *)
Definition load8 (p : Z) : M Z :=
  fun _ st => Some (byte_at (st_mem st) p, log (EvLoad p 1) st).

(** [p[0] = v] for an [unsigned char *p]: the value is converted. *)
Definition store8 (p v : Z) : M unit :=
  fun _ st => Some (tt, mkState (mem_set (st_mem st) p v)
                                (EvStore p 1 :: st_trace st)).

(** A control-flow decision. *)
Definition branch (b : bool) : M bool :=
  fun _ st => Some (b, log (EvBranch b) st).

(** [for (; cond; ) body], the loop variables being [s]; [body] ends with the
    increment.  At most [k] iterations are run. *)
Fixpoint iterate {L} (k : nat) (cond : L -> bool) (body : L -> M L) (s : L)
  : M L :=
  match k with
  | O => fun _ _ => None
  | S k' =>
      b <- branch (cond s) ;;
      if b then s' <- body s ;; iterate k' cond body s' else ret s
  end.

Definition for_loop {L} (cond : L -> bool) (body : L -> M L) (s : L) : M L :=
  fun fuel st => iterate fuel cond body s fuel st.

(** ** Unaligned word access (alignment.h)

    The helpers [mbedtls_get_unaligned_uint32] and
    [mbedtls_put_unaligned_uint32] are not defined in constant_time.c. *)

(** Modelled from the spec: a [uint32_t] is laid out in memory as four
    consecutive bytes, in the byte order of the target (the
    platform-specific unaligned-memory-access helpers are external). *)
Definition word_of_bytes (cfg : config) (b0 b1 b2 b3 : Z) : Z :=
  if MBEDTLS_IS_BIG_ENDIAN cfg
  then b3 + 2 ^ 8 * b2 + 2 ^ 16 * b1 + 2 ^ 24 * b0
  else b0 + 2 ^ 8 * b1 + 2 ^ 16 * b2 + 2 ^ 24 * b3.

(** Modelled from the spec: byte [k] (in memory order, [0 <= k < 4]) of a
    [uint32_t], for the same layout. *)
Definition byte_of_word (cfg : config) (w k : Z) : Z :=
  if MBEDTLS_IS_BIG_ENDIAN cfg
  then uchar (w / 2 ^ (8 * (3 - k)))
  else uchar (w / 2 ^ (8 * k)).

(** The word held in the four cells from [p] on. *)
Definition word_at (cfg : config) (m : mem) (p : Z) : Z :=
  word_of_bytes cfg (byte_at m p) (byte_at m (p + 1))
                (byte_at m (p + 2)) (byte_at m (p + 3)).

Definition mem_set_word (cfg : config) (m : mem) (p w : Z) : mem :=
  fun a =>
    if (p <=? a) && (a <? p + 4) then byte_of_word cfg w (a - p) else m a.

(** Modelled from the spec: the unaligned-access helper
    [mbedtls_get_unaligned_uint32] of alignment.h reads the four bytes at
    [p] as one word, in one access. *)
Definition mbedtls_get_unaligned_uint32 (cfg : config) (p : Z) : M Z :=
  fun _ st => Some (word_at cfg (st_mem st) p, log (EvLoad p 4) st).

(** Modelled from the spec: the unaligned-access helper
    [mbedtls_put_unaligned_uint32] of alignment.h writes a word to the four
    bytes at [p], in one access. *)
Definition mbedtls_put_unaligned_uint32 (cfg : config) (p w : Z) : M unit :=
  fun _ st => Some (tt, mkState (mem_set_word cfg (st_mem st) p w)
                                (EvStore p 4 :: st_trace st)).

(** ** The scalar primitives (constant_time_impl.h)

    The condition and mask primitives are external to constant_time.c.  They
    are branch-free and touch no memory, hence pure here. *)

(** Modelled from the spec: the condition type of constant_time_impl.h; a
    true condition is the word with all bits one. *)
Definition MBEDTLS_CT_TRUE : Z := 2 ^ 64 - 1.

(** Modelled from the spec: the condition type of constant_time_impl.h; a
    false condition is the word with all bits zero. *)
Definition MBEDTLS_CT_FALSE : Z := 0.

(** The condition that stands for a truth value. *)
Definition mbedtls_ct_bool (b : bool) : Z :=
  if b then MBEDTLS_CT_TRUE else MBEDTLS_CT_FALSE.

(** Modelled from the spec: the opaque barrier
    [mbedtls_ct_compiler_opaque] of constant_time_impl.h is the identity
    function. *)
Definition mbedtls_ct_compiler_opaque (x : Z) : Z := x.

(** Modelled from the spec: [mbedtls_ct_uint_eq] of constant_time_impl.h,
    the equality of two words as a condition. *)
Definition mbedtls_ct_uint_eq (x y : Z) : Z := mbedtls_ct_bool (x =? y).

(** Modelled from the spec: [mbedtls_ct_uint_gt] of constant_time_impl.h,
    [x > y] as a condition. *)
Definition mbedtls_ct_uint_gt (x y : Z) : Z := mbedtls_ct_bool (y <? x).

(** Modelled from the spec: [mbedtls_ct_uint_if] of constant_time_impl.h
    merges two words under a condition, [(c & if1) | (~c & if0)]. *)
Definition mbedtls_ct_uint_if (condition if1 if0 : Z) : Z :=
  Z.lor (Z.land condition if1) (Z.land (lnot64 condition) if0).

(** Modelled from the spec: [mbedtls_ct_uint_if_else_0] of
    constant_time_impl.h selects a word or zero, [c & if1]. *)
Definition mbedtls_ct_uint_if_else_0 (condition if1 : Z) : Z :=
  Z.land condition if1.

(** A condition in one of its two valid forms. *)
Definition is_condition (c : Z) : Prop :=
  c = MBEDTLS_CT_TRUE \/ c = MBEDTLS_CT_FALSE.

(** ** constant_time.c *)

(** [static inline uint32_t mbedtls_get_unaligned_volatile_uint32(
    volatile const unsigned char *p)] (lines 73-88): one [ldr] from [p]. *)
Definition mbedtls_get_unaligned_volatile_uint32 (cfg : config) (p : Z)
  : M Z :=
  fun _ st => Some (word_at cfg (st_mem st) p, log (EvLoad p 4) st).

(** [int mbedtls_ct_memcmp(const void *a, const void *b, size_t n)]
    (lines 92-124). *)
Definition mbedtls_ct_memcmp (cfg : config) (a b n : Z) : M Z :=
  let i := 0 in
  let A := a in
  let B := b in
  let diff := 0 in
  '(i, diff) <-
    (if MBEDTLS_EFFICIENT_UNALIGNED_VOLATILE_ACCESS cfg then
       for_loop (fun '(i, _) => size_t (i + 4) <=? n)
                (fun '(i, diff) =>
                   x <- mbedtls_get_unaligned_volatile_uint32 cfg (A + i) ;;
                   y <- mbedtls_get_unaligned_volatile_uint32 cfg (B + i) ;;
                   let diff := uint32_t (Z.lor diff (Z.lxor x y)) in
                   ret (size_t (i + 4), diff))
                (i, diff)
     else ret (i, diff)) ;;
  '(i, diff) <-
    for_loop (fun '(i, _) => i <? n)
             (fun '(i, diff) =>
                x <- load8 (A + i) ;;
                y <- load8 (B + i) ;;
                let diff := uint32_t (Z.lor diff (Z.lxor x y)) in
                ret (size_t (i + 1), diff))
             (i, diff) ;;
  ret (int_of_uint32 diff).

(** [void mbedtls_ct_memmove_left(void *start, size_t total, size_t offset)]
    (lines 128-143). *)
Definition mbedtls_ct_memmove_left (start total offset : Z) : M unit :=
  let buf := start in
  for_loop (fun i => i <? total)
           (fun i =>
              let no_op := mbedtls_ct_uint_gt (size_t (total - offset)) i in
              for_loop (fun n => n <? size_t (total - 1))
                       (fun n =>
                          current <- load8 (buf + n) ;;
                          next <- load8 (buf + size_t (n + 1)) ;;
                          store8 (buf + n)
                                 (mbedtls_ct_uint_if no_op current next) ;;
                          ret (size_t (n + 1)))
                       0 ;;
              last <- load8 (buf + size_t (total - 1)) ;;
              store8 (buf + size_t (total - 1))
                     (mbedtls_ct_uint_if_else_0 no_op last) ;;
              ret (size_t (i + 1)))
           0 ;;
  ret tt.

(** [void mbedtls_ct_memcpy_if(mbedtls_ct_condition_t condition,
    unsigned char *dest, const unsigned char *src1,
    const unsigned char *src2, size_t len)] (lines 147-177). *)
Definition mbedtls_ct_memcpy_if (cfg : config)
           (condition dest src1 src2 len : Z) : M unit :=
  let mask := uint32_t condition in
  let not_mask := uint32_t (lnot64 (mbedtls_ct_compiler_opaque condition)) in
  null <- branch (src2 =? NULL) ;;
  let src2 := if null then dest else src2 in
  let i := 0 in
  i <- (if MBEDTLS_EFFICIENT_UNALIGNED_ACCESS cfg then
          for_loop (fun i => size_t (i + 4) <=? len)
                   (fun i =>
                      x <- mbedtls_get_unaligned_uint32 cfg (src1 + i) ;;
                      let a := Z.land x mask in
                      y <- mbedtls_get_unaligned_uint32 cfg (src2 + i) ;;
                      let b := Z.land y not_mask in
                      mbedtls_put_unaligned_uint32 cfg (dest + i)
                                                   (Z.lor a b) ;;
                      ret (size_t (i + 4)))
                   i
        else ret i) ;;
  for_loop (fun i => i <? len)
           (fun i =>
              x <- load8 (src1 + i) ;;
              y <- load8 (src2 + i) ;;
              store8 (dest + i) (Z.lor (Z.land x mask) (Z.land y not_mask)) ;;
              ret (size_t (i + 1)))
           i ;;
  ret tt.

(** [void mbedtls_ct_memcpy_offset(unsigned char *dest,
    const unsigned char *src, size_t offset, size_t offset_min,
    size_t offset_max, size_t len)] (lines 179-192). *)
Definition mbedtls_ct_memcpy_offset (cfg : config)
           (dest src offset offset_min offset_max len : Z) : M unit :=
  for_loop (fun offsetval => offsetval <=? offset_max)
           (fun offsetval =>
              mbedtls_ct_memcpy_if cfg
                (mbedtls_ct_uint_eq offsetval offset)
                dest (src + offsetval) NULL len ;;
              ret (size_t (offsetval + 1)))
           offset_min ;;
  ret tt.

(** [void mbedtls_ct_zeroize_if(mbedtls_ct_condition_t condition, void *buf,
    size_t len)] (lines 196-210). *)
Definition mbedtls_ct_zeroize_if (cfg : config) (condition buf len : Z)
  : M unit :=
  let mask := uint32_t (lnot64 condition) in
  let p := buf in
  let i := 0 in
  i <- (if MBEDTLS_EFFICIENT_UNALIGNED_ACCESS cfg then
          for_loop (fun i => size_t (i + 4) <=? len)
                   (fun i =>
                      x <- mbedtls_get_unaligned_uint32 cfg (p + i) ;;
                      mbedtls_put_unaligned_uint32 cfg (p + i)
                                                   (Z.land x mask) ;;
                      ret (size_t (i + 4)))
                   i
        else ret i) ;;
  for_loop (fun i => i <? len)
           (fun i =>
              x <- load8 (p + i) ;;
              store8 (p + i) (Z.land x mask) ;;
              ret (size_t (i + 1)))
           i ;;
  ret tt.

(** Running a call from a memory, with an empty trace. *)
Definition run {A} (c : M A) (fuel : nat) (m : mem) : option (A * state) :=
  c fuel (mkState m []).

(** The bytes [p[0..n)] of a memory. *)
Definition bytes (m : mem) (p : Z) (n : nat) : list Z :=
  map (fun k => byte_at m (p + Z.of_nat k)) (seq 0 n).

(** A memory holding the bytes [l] from address [p] on, zero elsewhere. *)
Definition mem_of (p : Z) (l : list Z) : mem :=
  fun a => if (p <=? a) then nth (Z.to_nat (a - p)) l 0 else 0.

(** The bytes of [p[0..n)] after a run. *)
Definition bytes_after {A} (r : option (A * state)) (p : Z) (n : nat)
  : option (list Z) :=
  option_map (fun x => bytes (st_mem (snd x)) p n) r.

(** * Specifications

    The vocabulary in which the operations are specified: what a call does
    to the bytes of memory, and what it lets an observer see. *)

(** ** Buffers in memory *)

(** Two memories that hold the same bytes. *)
Definition mem_eq (m m' : mem) : Prop := forall a, byte_at m a = byte_at m' a.

(** No cell outside [p[0..n)] differs between [m0] and [m]. *)
Definition unchanged_outside (p n : Z) (m0 m : mem) : Prop :=
  forall a, ~ (p <= a < p + n) -> m a = m0 a.

(** What a valid condition selects. *)
Definition chosen {A} (c : Z) (x y : A) : A :=
  if c =? MBEDTLS_CT_FALSE then y else x.

(** Bytes [lo..hi) of the buffers [a] and [b] agree. *)
Definition agree (a b : Z) (m : mem) (lo hi : Z) : Prop :=
  forall j, lo <= j < hi -> byte_at m (a + j) = byte_at m (b + j).

(** [m] is [m0] with [dest[0..i)] overwritten by [sel[0..i)] of [m0]. *)
Definition copied (sel dest i : Z) (m0 m : mem) : Prop :=
  forall a, byte_at m a
            = if (dest <=? a) && (a <? dest + i)
              then byte_at m0 (sel + (a - dest))
              else byte_at m0 a.

(** A forward copy of [len] bytes from [sel] to [dest] reads no byte that it
    has written: the buffers are the same, or apart, or [sel] is ahead. *)
Definition can_copy (sel dest len : Z) : Prop :=
  dest <= sel \/ sel + len <= dest.

(** [src2] of [mbedtls_ct_memcpy_if] after the test against [NULL]. *)
Definition memcpy_if_src2 (dest src2 : Z) : Z :=
  if src2 =? NULL then dest else src2.

(** The source that a valid condition selects in [mbedtls_ct_memcpy_if]. *)
Definition memcpy_if_source (condition dest src1 src2 : Z) : Z :=
  chosen condition src1 (memcpy_if_src2 dest src2).

(** The contract under which [mbedtls_ct_memcpy_if] copies as the caller
    expects. *)
Definition memcpy_if_pre (condition dest src1 src2 len : Z) : Prop :=
  is_condition condition
  /\ can_copy (memcpy_if_source condition dest src1 src2) dest len.

(** [m] is [m0] with each byte of [p[0..i)] replaced by zero when the
    condition is true. *)
Definition cleared (c p i : Z) (m0 m : mem) : Prop :=
  forall a, byte_at m a
            = if (p <=? a) && (a <? p + i)
              then chosen c 0 (byte_at m0 a)
              else byte_at m0 a.

(** The number of candidate offsets of [mbedtls_ct_memcpy_offset]. *)
Definition candidates (offset_min offset_max : Z) : nat :=
  Z.to_nat (offset_max + 1 - offset_min).

(** The candidate offsets, in the order of the loop. *)
Definition candidate_offsets (offset_min offset_max : Z) : list Z :=
  map (fun j => offset_min + Z.of_nat j)
      (seq 0 (candidates offset_min offset_max)).

(** [offset] is one of the candidates. *)
Definition in_range (offset offset_min offset_max : Z) : Prop :=
  offset_min <= offset <= offset_max.

(** [m] is [m0] with [start[0..total)] moved left by [s] bytes and zero
    filled. *)
Definition shifted (start total s : Z) (m0 m : mem) : Prop :=
  forall a, byte_at m a
            = if (start <=? a) && (a <? start + total)
              then if a + s <? start + total then byte_at m0 (a + s) else 0
              else byte_at m0 a.

(** The inner loop of [mbedtls_ct_memmove_left] has handled [start[0..n)] of
    a pass run under the condition [c] from the memory [m1]. *)
Definition passed (start c n : Z) (m1 m : mem) : Prop :=
  forall a, byte_at m a
            = if (start <=? a) && (a <? start + n)
              then chosen c (byte_at m1 a) (byte_at m1 (a + 1))
              else byte_at m1 a.

(** One outer pass of [mbedtls_ct_memmove_left] from [m1] under the
    condition [c]. *)
Definition one_pass (start total c : Z) (m1 m2 : mem) : Prop :=
  forall a, byte_at m2 a
            = if (start <=? a) && (a <? start + total)
              then chosen c (byte_at m1 a)
                          (if a + 1 <? start + total
                           then byte_at m1 (a + 1) else 0)
              else byte_at m1 a.

(** ** Leakage *)

(** What a run lets an observer see, oldest event first. *)
Definition leakage {A} (c : M A) (fuel : nat) (m : mem)
  : option (list event) :=
  match run c fuel m with
  | Some (_, st') => Some (rev (st_trace st'))
  | None => None
  end.

(** [st] has emitted the events [evs] (oldest first) since the trace [t0]. *)
Definition emitted (t0 : list event) (evs : list event) (st : state) : Prop :=
  st_trace st = rev evs ++ t0.

(** The events of the first [k] iterations of a loop whose counter starts at
    [i0] and advances by [stride]; [body i] lists the events of the iteration
    run at counter [i], oldest first. *)
Definition loop_events (body : Z -> list event) (i0 stride : Z) (k : nat)
  : list event :=
  flat_map (fun j => EvBranch true :: body (i0 + stride * Z.of_nat j))
           (seq 0 k).

(** The events of a loop that leaves after [k] iterations. *)
Definition loop_exit (body : Z -> list event) (i0 stride : Z) (k : nat)
  : list event :=
  loop_events body i0 stride k ++ [EvBranch false].

(** The events of a walk over [len] bytes: word-wide while four bytes are
    left when the fast path is compiled in, then byte-wide. *)
Definition walk_events (fast : bool) (word_ev byte_ev : Z -> list event)
           (len : Z) : list event :=
  if fast
  then loop_exit word_ev 0 4 (Z.to_nat (len / 4))
       ++ loop_exit byte_ev (4 * (len / 4)) 1
                    (Z.to_nat (len - 4 * (len / 4)))
  else loop_exit byte_ev 0 1 (Z.to_nat len).

(** The events of [mbedtls_ct_memcmp]: a function of the addresses and of
    the length. *)
Definition memcmp_byte_events (a b i : Z) : list event :=
  [EvLoad (a + i) 1; EvLoad (b + i) 1].

Definition memcmp_word_events (a b i : Z) : list event :=
  [EvLoad (a + i) 4; EvLoad (b + i) 4].

Definition memcmp_events (cfg : config) (a b n : Z) : list event :=
  walk_events (MBEDTLS_EFFICIENT_UNALIGNED_VOLATILE_ACCESS cfg)
              (memcmp_word_events a b) (memcmp_byte_events a b) n.

(** The events of [mbedtls_ct_memcpy_if]: the condition is no argument. *)
Definition memcpy_if_byte_events (dest src1 src2 i : Z) : list event :=
  [EvLoad (src1 + i) 1; EvLoad (memcpy_if_src2 dest src2 + i) 1;
   EvStore (dest + i) 1].

Definition memcpy_if_word_events (dest src1 src2 i : Z) : list event :=
  [EvLoad (src1 + i) 4; EvLoad (memcpy_if_src2 dest src2 + i) 4;
   EvStore (dest + i) 4].

Definition memcpy_if_events (cfg : config) (dest src1 src2 len : Z)
  : list event :=
  EvBranch (src2 =? NULL)
  :: walk_events (MBEDTLS_EFFICIENT_UNALIGNED_ACCESS cfg)
                 (memcpy_if_word_events dest src1 src2)
                 (memcpy_if_byte_events dest src1 src2) len.

(** The events of [mbedtls_ct_zeroize_if]. *)
Definition zeroize_if_byte_events (buf i : Z) : list event :=
  [EvLoad (buf + i) 1; EvStore (buf + i) 1].

Definition zeroize_if_word_events (buf i : Z) : list event :=
  [EvLoad (buf + i) 4; EvStore (buf + i) 4].

Definition zeroize_if_events (cfg : config) (buf len : Z) : list event :=
  walk_events (MBEDTLS_EFFICIENT_UNALIGNED_ACCESS cfg)
              (zeroize_if_word_events buf) (zeroize_if_byte_events buf) len.

(** The events of [mbedtls_ct_memcpy_offset]: one conditional copy from
    [src + v] for each candidate [v]; the offset is no argument. *)
Definition memcpy_offset_events (cfg : config)
           (dest src offset_min offset_max len : Z) : list event :=
  loop_exit (fun v => memcpy_if_events cfg dest (src + v) NULL len)
            offset_min 1 (candidates offset_min offset_max).

(** The events of [mbedtls_ct_memmove_left]: the offset is no argument. *)
Definition memmove_inner_events (start n : Z) : list event :=
  [EvLoad (start + n) 1; EvLoad (start + (n + 1)) 1; EvStore (start + n) 1].

Definition memmove_pass_events (start total i : Z) : list event :=
  loop_exit (memmove_inner_events start) 0 1 (Z.to_nat (total - 1))
  ++ [EvLoad (start + (total - 1)) 1; EvStore (start + (total - 1)) 1].

Definition memmove_left_events (start total : Z) : list event :=
  loop_exit (memmove_pass_events start total) 0 1 (Z.to_nat total).

(** ** The value of a comparison *)

(** The accumulator [diff] of [mbedtls_ct_memcmp] after [k] more iterations
    of a loop that stands at counter [i] and advances by [stride]; [term i]
    is [x ^ y] at counter [i]. *)
Fixpoint or_diffs (term : Z -> Z) (stride i : Z) (k : nat) (diff : Z) : Z :=
  match k with
  | O => diff
  | S k' =>
      or_diffs term stride (i + stride) k' (uint32_t (Z.lor diff (term i)))
  end.

(** [x ^ y] in the byte loop and in the word loop of [mbedtls_ct_memcmp]. *)
Definition memcmp_byte_diff (m : mem) (a b i : Z) : Z :=
  Z.lxor (byte_at m (a + i)) (byte_at m (b + i)).

Definition memcmp_word_diff (cfg : config) (m : mem) (a b i : Z) : Z :=
  Z.lxor (word_at cfg m (a + i)) (word_at cfg m (b + i)).

(** [diff] when [mbedtls_ct_memcmp] leaves its last loop. *)
Definition memcmp_diff (cfg : config) (m : mem) (a b n : Z) : Z :=
  if MBEDTLS_EFFICIENT_UNALIGNED_VOLATILE_ACCESS cfg
  then or_diffs (memcmp_byte_diff m a b) 1 (4 * (n / 4))
                (Z.to_nat (n - 4 * (n / 4)))
                (or_diffs (memcmp_word_diff cfg m a b) 4 0
                          (Z.to_nat (n / 4)) 0)
  else or_diffs (memcmp_byte_diff m a b) 1 0 (Z.to_nat n) 0.

(** The offset, in a word in memory, of its most significant byte. *)
Definition msb_offset (cfg : config) : Z :=
  if MBEDTLS_IS_BIG_ENDIAN cfg then 0 else 3.

(** The counter of a word-wide loop: a multiple of four below [2 ^ 64]. *)
Definition word_counter (i : Z) : Prop := 0 <= i < 2 ^ 64 /\ i mod 4 = 0.

(** [m] is [m0] with each byte of [dest[0..i)] replaced by the merge
    [(x & mask) | (y & not_mask)] of the bytes of the two sources of
    [mbedtls_ct_memcpy_if], for a condition [c] of any value. *)
Definition merged (c src1 s2 dest i : Z) (m0 m : mem) : Prop :=
  forall a,
    byte_at m a
    = if (dest <=? a) && (a <? dest + i)
      then uchar (Z.lor (Z.land (byte_at m0 (src1 + (a - dest)))
                                (uint32_t c))
                        (Z.land (byte_at m0 (s2 + (a - dest)))
                                (uint32_t
                                   (lnot64 (mbedtls_ct_compiler_opaque c)))))
      else byte_at m0 a.

(** ** The cost of a run *)

Definition is_access (e : event) : bool :=
  match e with
  | EvLoad _ _ | EvStore _ _ => true
  | EvBranch _ => false
  end.

(** The number of loads and stores of a trace. *)
Definition accesses (evs : list event) : nat :=
  length (filter is_access evs).

(** The number of iterations of a walk over [len] bytes. *)
Definition walk_steps (fast : bool) (len : Z) : Z :=
  if fast then len / 4 + len mod 4 else len.

(** * Proofs *)

(** ** Concrete runs *)

Example memmove_left_runs :
  bytes_after (run (mbedtls_ct_memmove_left 100 8 3) 9
                   (mem_of 100 [1; 2; 3; 4; 5; 6; 7; 8])) 100 8
  = Some [4; 5; 6; 7; 8; 0; 0; 0].
Proof. vm_compute. reflexivity. Qed.

Example memcmp_runs :
  option_map fst (run (mbedtls_ct_memcmp portable 100 103 3) 4
                      (mem_of 100 [1; 2; 3; 1; 2; 4])) = Some 7
  /\ option_map fst (run (mbedtls_ct_memcmp aarch64 100 105 5) 6
                         (mem_of 100 [1; 2; 3; 4; 5; 1; 2; 3; 4; 5]))
     = Some 0.
Proof. split; vm_compute; reflexivity. Qed.

Example memcpy_offset_runs :
  bytes_after (run (mbedtls_ct_memcpy_offset big_endian_fast 100 200 3 1 4 5)
                   6 (mem_of 200 [10; 11; 12; 13; 14; 15; 16; 17; 18]))
              100 5
  = Some [13; 14; 15; 16; 17].
Proof. vm_compute. reflexivity. Qed.

(** A loop that needs more iterations than the budget yields [None]. *)
Example budget_exhausted :
  run (mbedtls_ct_memcmp portable 100 200 6) 6 (mem_of 100 []) = None.
Proof. vm_compute. reflexivity. Qed.

(** Outside the contract of [mbedtls_ct_memcpy_if], with a source that lies
    one byte behind the destination, the forward copy reads what it has
    written. *)
Example memcpy_if_overlap_runs :
  bytes_after (run (mbedtls_ct_memcpy_if portable MBEDTLS_CT_TRUE
                                         101 100 NULL 3)
                   4 (mem_of 100 [1; 2; 3; 4])) 100 4
  = Some [1; 1; 1; 1].
Proof. vm_compute. reflexivity. Qed.

(** ** Reasoning about the monad *)

Lemma bind_Some {A B} (m : M A) (k : A -> M B) fuel st a st' :
  m fuel st = Some (a, st') -> bind m k fuel st = k a fuel st'.
Proof. intros H. unfold bind. now rewrite H. Qed.

(** The invariant rule of [for] loops, for total correctness: [mu] bounds the
    number of iterations left. *)
Lemma iterate_rule {L} (Inv : L -> state -> Prop) (mu : L -> nat)
      (cond : L -> bool) (body : L -> M L) (fuel : nat) :
  (forall s st, Inv s st -> cond s = true ->
     exists s' st', body s fuel (log (EvBranch true) st) = Some (s', st')
                    /\ Inv s' st' /\ (mu s' < mu s)%nat) ->
  forall k s st, Inv s st -> (mu s < k)%nat ->
     exists s' st', iterate k cond body s fuel st
                    = Some (s', log (EvBranch false) st')
                    /\ Inv s' st' /\ cond s' = false.
Proof.
  intros Hbody. induction k as [|k IH]; intros s st HI Hk; [lia|].
  cbn [iterate]. unfold bind at 1, branch.
  destruct (cond s) eqn:Hc.
  - destruct (Hbody s st HI Hc) as (s1 & st1 & Hb & HI1 & Hmu).
    rewrite (bind_Some _ _ _ _ _ _ Hb).
    apply IH; [assumption | lia].
  - exists s, st. unfold ret. auto.
Qed.

Lemma for_loop_rule {L} (Inv : L -> state -> Prop) (mu : L -> nat)
      (cond : L -> bool) (body : L -> M L) (fuel : nat) s st :
  (forall s st, Inv s st -> cond s = true ->
     exists s' st', body s fuel (log (EvBranch true) st) = Some (s', st')
                    /\ Inv s' st' /\ (mu s' < mu s)%nat) ->
  Inv s st -> (mu s < fuel)%nat ->
  exists s' st', for_loop cond body s fuel st
                 = Some (s', log (EvBranch false) st')
                 /\ Inv s' st' /\ cond s' = false.
Proof. intros. unfold for_loop. eapply iterate_rule; eauto. Qed.

(** A loop whose test holds in every state it can reach does not finish,
    whatever the budget. *)
Lemma iterate_spins {L} (P : L -> Prop) (cond : L -> bool)
      (body : L -> M L) (fuel : nat) :
  (forall s, P s -> cond s = true) ->
  (forall s st s' st', P s -> body s fuel st = Some (s', st') -> P s') ->
  forall k s st, P s -> iterate k cond body s fuel st = None.
Proof.
  intros Hcond Hbody. induction k as [|k IH]; intros s st HP; [reflexivity|].
  cbn [iterate]. unfold bind at 1, branch. rewrite (Hcond s HP).
  unfold bind.
  destruct (body s fuel (log (EvBranch true) st)) as [[s' st']|] eqn:E;
    [|reflexivity].
  apply IH. eapply Hbody; eassumption.
Qed.

(** Applies the invariant rule to the loop of the goal. *)
Ltac loop_rule I mu :=
  lazymatch goal with
  | |- context [for_loop ?c ?b ?s ?fuel ?st] =>
      let H := fresh "Hloop" in
      assert (H : exists s' st',
                 for_loop c b s fuel st = Some (s', log (EvBranch false) st')
                 /\ I s' st' /\ c s' = false);
      [ apply (for_loop_rule I mu c b fuel s st) | ]
  end.

(** Runs the straight-line code at the head of the goal. *)
Ltac mrun :=
  cbv beta iota zeta delta
      [bind ret branch load8 store8 mbedtls_get_unaligned_uint32
       mbedtls_put_unaligned_uint32 mbedtls_get_unaligned_volatile_uint32].

(** ** Machine arithmetic *)

Lemma size_t_small x : 0 <= x <= SIZE_MAX -> size_t x = x.
Proof. unfold size_t, SIZE_MAX. intros. apply Z.mod_small. lia. Qed.

Lemma uchar_range x : 0 <= uchar x < 256.
Proof. unfold uchar. apply Z.mod_pos_bound. reflexivity. Qed.

Lemma uchar_small x : 0 <= x < 256 -> uchar x = x.
Proof. unfold uchar. intros. now apply Z.mod_small. Qed.

Lemma byte_at_range m p : 0 <= byte_at m p < 256.
Proof. apply uchar_range. Qed.

Lemma uchar_byte_at m p : uchar (byte_at m p) = byte_at m p.
Proof. apply uchar_small, byte_at_range. Qed.

Lemma word_of_bytes_range cfg b0 b1 b2 b3 :
  0 <= b0 < 256 -> 0 <= b1 < 256 -> 0 <= b2 < 256 -> 0 <= b3 < 256 ->
  0 <= word_of_bytes cfg b0 b1 b2 b3 < 2 ^ 32.
Proof. unfold word_of_bytes. destruct (MBEDTLS_IS_BIG_ENDIAN cfg); lia. Qed.

Lemma word_of_bytes_inj cfg b0 b1 b2 b3 c0 c1 c2 c3 :
  0 <= b0 < 256 -> 0 <= b1 < 256 -> 0 <= b2 < 256 -> 0 <= b3 < 256 ->
  0 <= c0 < 256 -> 0 <= c1 < 256 -> 0 <= c2 < 256 -> 0 <= c3 < 256 ->
  word_of_bytes cfg b0 b1 b2 b3 = word_of_bytes cfg c0 c1 c2 c3 ->
  b0 = c0 /\ b1 = c1 /\ b2 = c2 /\ b3 = c3.
Proof. unfold word_of_bytes. destruct (MBEDTLS_IS_BIG_ENDIAN cfg); lia. Qed.

Lemma byte_of_word_of_bytes cfg b0 b1 b2 b3 k :
  0 <= b0 < 256 -> 0 <= b1 < 256 -> 0 <= b2 < 256 -> 0 <= b3 < 256 ->
  0 <= k < 4 ->
  byte_of_word cfg (word_of_bytes cfg b0 b1 b2 b3) k
  = if k =? 0 then b0 else if k =? 1 then b1 else if k =? 2 then b2 else b3.
Proof.
  intros. unfold byte_of_word, word_of_bytes, uchar.
  assert (k = 0 \/ k = 1 \/ k = 2 \/ k = 3) as [-> | [-> | [-> | ->]]] by lia;
    destruct (MBEDTLS_IS_BIG_ENDIAN cfg); cbn -[Z.div Z.modulo Z.mul Z.add];
    change (2 ^ 8) with 256; change (2 ^ 16) with 65536;
    change (2 ^ 24) with 16777216; change (2 ^ 0) with 1;
    Z.to_euclidean_division_equations; lia.
Qed.

Lemma byte_of_word_zero cfg k : byte_of_word cfg 0 k = 0.
Proof.
  unfold byte_of_word, uchar.
  destruct (MBEDTLS_IS_BIG_ENDIAN cfg); now rewrite Zdiv_0_l.
Qed.

Lemma uint32_lor x y : uint32_t (Z.lor x y) = Z.lor (uint32_t x) (uint32_t y).
Proof.
  unfold uint32_t. rewrite <- !Z.land_ones by lia. apply Z.land_lor_distr_l.
Qed.

Lemma uint32_lxor x y :
  uint32_t (Z.lxor x y) = Z.lxor (uint32_t x) (uint32_t y).
Proof.
  unfold uint32_t. rewrite <- !Z.land_ones by lia.
  apply Z.bits_inj'. intros k _.
  rewrite Z.lxor_spec, !Z.land_spec, Z.lxor_spec.
  destruct (Z.testbit x k), (Z.testbit y k), (Z.testbit (Z.ones 32) k);
    reflexivity.
Qed.

Lemma uint32_small x : 0 <= x < 2 ^ 32 -> uint32_t x = x.
Proof. unfold uint32_t. intros. now apply Z.mod_small. Qed.

Lemma uint32_range x : 0 <= uint32_t x < 2 ^ 32.
Proof. unfold uint32_t. apply Z.mod_pos_bound. reflexivity. Qed.

(** The accumulation step [diff |= x ^ y] of the comparison. *)
Lemma diff_step_zero d x y :
  0 <= d < 2 ^ 32 -> 0 <= x < 2 ^ 32 -> 0 <= y < 2 ^ 32 ->
  uint32_t (Z.lor d (Z.lxor x y)) = 0 <-> d = 0 /\ x = y.
Proof.
  intros Hd Hx Hy.
  rewrite uint32_lor, uint32_lxor, !uint32_small by assumption.
  rewrite Z.lor_eq_0_iff, Z.lxor_eq_0_iff. tauto.
Qed.

Lemma int_of_uint32_zero d : 0 <= d < 2 ^ 32 -> int_of_uint32 d = 0 <-> d = 0.
Proof.
  intros Hd. unfold int_of_uint32. destruct (d <? 2 ^ 31) eqn:E; lia.
Qed.

Lemma byte_small_word x : 0 <= x < 256 -> 0 <= x < 2 ^ 32.
Proof. lia. Qed.

(** ** Leakage of loops *)

Lemma loop_events_S body i0 stride k :
  loop_events body i0 stride (S k)
  = loop_events body i0 stride k
    ++ EvBranch true :: body (i0 + stride * Z.of_nat k).
Proof.
  unfold loop_events. rewrite seq_S, flat_map_app. cbn [flat_map Nat.add].
  now rewrite app_nil_r.
Qed.

Lemma emitted_nil st : emitted (st_trace st) [] st.
Proof. reflexivity. Qed.

Lemma emitted_app t0 e1 e2 st :
  st_trace st = rev e2 ++ rev e1 ++ t0 -> emitted t0 (e1 ++ e2) st.
Proof. unfold emitted. intros ->. now rewrite rev_app_distr, app_assoc. Qed.

Lemma emitted_iteration t0 body i0 stride k evs st st' :
  emitted t0 (loop_events body i0 stride k) st ->
  evs = body (i0 + stride * Z.of_nat k) ->
  st_trace st' = rev evs ++ EvBranch true :: st_trace st ->
  emitted t0 (loop_events body i0 stride (S k)) st'.
Proof.
  unfold emitted. intros Ht -> Ht'. rewrite loop_events_S, Ht', Ht.
  rewrite rev_app_distr. cbn [rev]. now rewrite <- !app_assoc.
Qed.

Lemma emitted_exit t0 body i0 stride k st :
  emitted t0 (loop_events body i0 stride k) st ->
  emitted t0 (loop_exit body i0 stride k) (log (EvBranch false) st).
Proof.
  unfold emitted, loop_exit. intros Ht. rewrite rev_app_distr.
  cbn [log st_trace rev app]. now rewrite Ht.
Qed.

Lemma emitted_seq t0 e1 e2 st1 st2 :
  emitted t0 e1 st1 -> emitted (st_trace st1) e2 st2 ->
  emitted t0 (e1 ++ e2) st2.
Proof.
  unfold emitted. intros H1 H2. now rewrite H2, H1, rev_app_distr, app_assoc.
Qed.

(** ** Memory lemmas *)

Lemma mem_eq_refl m : mem_eq m m.
Proof. intros a. reflexivity. Qed.

Lemma mem_eq_trans m1 m2 m3 : mem_eq m1 m2 -> mem_eq m2 m3 -> mem_eq m1 m3.
Proof. intros H1 H2 a. now rewrite H1. Qed.

Lemma uchar_uchar x : uchar (uchar x) = uchar x.
Proof. apply uchar_small, uchar_range. Qed.

Lemma byte_at_mem_set m p v a :
  byte_at (mem_set m p v) a = if a =? p then uchar v else byte_at m a.
Proof.
  unfold byte_at, mem_set. destruct (a =? p); [apply uchar_uchar | reflexivity].
Qed.

Lemma byte_of_word_at cfg m q k :
  0 <= k < 4 -> byte_of_word cfg (word_at cfg m q) k = byte_at m (q + k).
Proof.
  intros Hk. unfold word_at.
  rewrite byte_of_word_of_bytes by (apply byte_at_range || assumption).
  assert (k = 0 \/ k = 1 \/ k = 2 \/ k = 3) as [-> | [-> | [-> | ->]]] by lia;
    cbn [Z.eqb Pos.eqb]; rewrite ?Z.add_0_r; reflexivity.
Qed.

Lemma byte_of_word_range cfg w k : 0 <= byte_of_word cfg w k < 256.
Proof.
  unfold byte_of_word. destruct (MBEDTLS_IS_BIG_ENDIAN cfg); apply uchar_range.
Qed.

Lemma byte_at_mem_set_word cfg m p w a :
  byte_at (mem_set_word cfg m p w) a
  = if (p <=? a) && (a <? p + 4) then byte_of_word cfg w (a - p)
    else byte_at m a.
Proof.
  unfold byte_at at 1. unfold mem_set_word.
  destruct ((p <=? a) && (a <? p + 4));
    [apply uchar_small, byte_of_word_range | reflexivity].
Qed.

(** ** Selection under a condition *)

Lemma land_mask32 x : 0 <= x < 2 ^ 32 -> Z.land x (2 ^ 32 - 1) = x.
Proof.
  intros Hx. change (2 ^ 32 - 1) with (Z.ones 32).
  rewrite Z.land_ones by lia. now apply Z.mod_small.
Qed.

Lemma land_mask64 x : 0 <= x < 2 ^ 64 -> Z.land (2 ^ 64 - 1) x = x.
Proof.
  intros Hx. change (2 ^ 64 - 1) with (Z.ones 64).
  rewrite Z.land_comm, Z.land_ones by lia. now apply Z.mod_small.
Qed.

(** [(x & mask) | (y & not_mask)] with the masks of [mbedtls_ct_memcpy_if]. *)
Lemma select32 c x y :
  is_condition c -> 0 <= x < 2 ^ 32 -> 0 <= y < 2 ^ 32 ->
  Z.lor (Z.land x (uint32_t c))
        (Z.land y (uint32_t (lnot64 (mbedtls_ct_compiler_opaque c))))
  = chosen c x y.
Proof.
  intros [-> | ->] Hx Hy; unfold chosen.
  - change (uint32_t MBEDTLS_CT_TRUE) with (2 ^ 32 - 1).
    change (uint32_t (lnot64 (mbedtls_ct_compiler_opaque MBEDTLS_CT_TRUE)))
      with 0.
    rewrite land_mask32, Z.land_0_r, Z.lor_0_r by assumption. reflexivity.
  - change (uint32_t MBEDTLS_CT_FALSE) with 0.
    change (uint32_t (lnot64 (mbedtls_ct_compiler_opaque MBEDTLS_CT_FALSE)))
      with (2 ^ 32 - 1).
    rewrite land_mask32, Z.land_0_r, Z.lor_0_l by assumption. reflexivity.
Qed.

(** [x & mask] with the mask of [mbedtls_ct_zeroize_if]. *)
Lemma clear32 c x :
  is_condition c -> 0 <= x < 2 ^ 32 ->
  Z.land x (uint32_t (lnot64 c)) = chosen c 0 x.
Proof.
  intros [-> | ->] Hx; unfold chosen.
  - change (uint32_t (lnot64 MBEDTLS_CT_TRUE)) with 0. apply Z.land_0_r.
  - change (uint32_t (lnot64 MBEDTLS_CT_FALSE)) with (2 ^ 32 - 1).
    now apply land_mask32.
Qed.

Lemma uint_if_chosen c x y :
  is_condition c -> 0 <= x < 2 ^ 64 -> 0 <= y < 2 ^ 64 ->
  mbedtls_ct_uint_if c x y = chosen c x y.
Proof.
  intros [-> | ->] Hx Hy; unfold chosen, mbedtls_ct_uint_if.
  - change (lnot64 MBEDTLS_CT_TRUE) with 0. unfold MBEDTLS_CT_TRUE.
    rewrite land_mask64, Z.land_0_l, Z.lor_0_r by assumption. reflexivity.
  - change (lnot64 MBEDTLS_CT_FALSE) with (2 ^ 64 - 1).
    unfold MBEDTLS_CT_FALSE.
    rewrite land_mask64, Z.land_0_l, Z.lor_0_l by assumption. reflexivity.
Qed.

Lemma uint_if_else_0_chosen c x :
  is_condition c -> 0 <= x < 2 ^ 64 ->
  mbedtls_ct_uint_if_else_0 c x = chosen c x 0.
Proof.
  intros [-> | ->] Hx; unfold chosen, mbedtls_ct_uint_if_else_0.
  - unfold MBEDTLS_CT_TRUE. now rewrite land_mask64.
  - apply Z.land_0_l.
Qed.

Lemma is_condition_bool b : is_condition (mbedtls_ct_bool b).
Proof. destruct b; [left | right]; reflexivity. Qed.

Lemma chosen_bool {A} b (x y : A) :
  chosen (mbedtls_ct_bool b) x y = if b then x else y.
Proof. destruct b; reflexivity. Qed.

Lemma chosen_app {A B} (f : A -> B) c x y :
  f (chosen c x y) = chosen c (f x) (f y).
Proof. unfold chosen. now destruct (c =? MBEDTLS_CT_FALSE). Qed.

(** ** mbedtls_ct_memcmp *)

Section Memcmp.
Variables (cfg : config) (a b n : Z).
Hypothesis Hn : object_size n.

Local Abbreviation byte_events := (memcmp_byte_events a b).
Local Abbreviation word_events := (memcmp_word_events a b).

Lemma agree_snoc m lo i :
  lo <= i ->
  agree a b m lo (i + 1)
  <-> agree a b m lo i /\ byte_at m (a + i) = byte_at m (b + i).
Proof.
  intros Hi. unfold agree. split.
  - intros H. split; [intros j Hj|]; apply H; lia.
  - intros [H1 H2] j Hj.
    destruct (Z.eq_dec j i) as [->|]; [assumption | apply H1; lia].
Qed.

Lemma memcmp_byte_loop fuel st i0 d0 :
  0 <= i0 <= n -> 0 <= d0 < 2 ^ 32 -> (Z.to_nat n < fuel)%nat ->
  exists diff st',
    for_loop (fun '(i, _) => i <? n)
             (fun '(i, diff) =>
                x <- load8 (a + i) ;;
                y <- load8 (b + i) ;;
                let diff := uint32_t (Z.lor diff (Z.lxor x y)) in
                ret (size_t (i + 1), diff))
             (i0, d0) fuel st = Some ((n, diff), st')
    /\ st_mem st' = st_mem st
    /\ emitted (st_trace st)
               (loop_exit byte_events i0 1 (Z.to_nat (n - i0))) st'
    /\ 0 <= diff < 2 ^ 32
    /\ (diff = 0 <-> d0 = 0 /\ agree a b (st_mem st) i0 n).
Proof.
  intros Hi0 Hd0 Hfuel.
  loop_rule
    (fun '((i, diff) : Z * Z) st' =>
       i0 <= i <= n /\ st_mem st' = st_mem st
       /\ emitted (st_trace st)
                  (loop_events byte_events i0 1 (Z.to_nat (i - i0)))
                  st'
       /\ 0 <= diff < 2 ^ 32
       /\ (diff = 0 <-> d0 = 0 /\ agree a b (st_mem st) i0 i))
    (fun s : Z * Z => Z.to_nat (n - fst s)).
  - intros [i diff] st1 (Hi & Hm & Ht & Hd & Hz) Hc.
    apply Z.ltb_lt in Hc.
    eexists (_, _), _. split; [mrun; reflexivity|].
    cbn [st_mem log st_trace fst].
    unfold object_size, PTRDIFF_MAX in Hn.
    rewrite size_t_small by (unfold SIZE_MAX; lia).
    split; [|lia].
    split; [lia|]. split; [assumption|]. split; [|split].
    + replace (Z.to_nat (i + 1 - i0)) with (S (Z.to_nat (i - i0))) by lia.
      rewrite loop_events_S. apply emitted_app.
      red in Ht. cbn [log st_trace]. rewrite Ht.
      replace (i0 + 1 * Z.of_nat (Z.to_nat (i - i0))) with i by lia.
      reflexivity.
    + apply uint32_range.
    + rewrite diff_step_zero
        by (assumption || apply byte_small_word, byte_at_range).
      rewrite Hz, agree_snoc, Hm by lia. tauto.
  - split; [lia|]. split; [reflexivity|]. split; [|split].
    + rewrite Z.sub_diag. apply emitted_nil.
    + assumption.
    + unfold agree. split; [intros; split; [assumption | intros; lia] | tauto].
  - cbn [fst]. lia.
  - destruct Hloop as ([i diff] & st' & Hrun & (Hi & Hm & Ht & Hd & Hz) & Hc).
    apply Z.ltb_ge in Hc. assert (i = n) as -> by lia.
    exists diff, (log (EvBranch false) st').
    split; [assumption|]. split; [assumption|]. split; [|split; assumption].
    unfold loop_exit. apply emitted_app. cbn [log st_trace rev app].
    now rewrite Ht.
Qed.

Lemma word_at_range m p : 0 <= word_at cfg m p < 2 ^ 32.
Proof. apply word_of_bytes_range; apply byte_at_range. Qed.

Lemma agree_word m lo i :
  lo <= i ->
  agree a b m lo (i + 4)
  <-> agree a b m lo i /\ word_at cfg m (a + i) = word_at cfg m (b + i).
Proof.
  intros Hi. unfold agree, word_at. split.
  - intros H. split; [intros j Hj; apply H; lia|].
    rewrite <- !Z.add_assoc.
    rewrite (H i), (H (i + 1)), (H (i + 2)), (H (i + 3)) by lia.
    reflexivity.
  - intros [H1 H2] j Hj.
    apply word_of_bytes_inj in H2; try apply byte_at_range.
    destruct H2 as (E0 & E1 & E2 & E3). rewrite <- !Z.add_assoc in *.
    assert (j < i \/ j = i \/ j = i + 1 \/ j = i + 2 \/ j = i + 3)
      as [Hj' | [-> | [-> | [-> | ->]]]] by lia;
      [apply H1; lia | assumption..].
Qed.

Lemma memcmp_word_loop fuel st :
  (Z.to_nat n < fuel)%nat ->
  exists diff st',
    for_loop (fun '(i, _) => size_t (i + 4) <=? n)
             (fun '(i, diff) =>
                x <- mbedtls_get_unaligned_volatile_uint32 cfg (a + i) ;;
                y <- mbedtls_get_unaligned_volatile_uint32 cfg (b + i) ;;
                let diff := uint32_t (Z.lor diff (Z.lxor x y)) in
                ret (size_t (i + 4), diff))
             (0, 0) fuel st = Some ((4 * (n / 4), diff), st')
    /\ st_mem st' = st_mem st
    /\ emitted (st_trace st)
               (loop_exit word_events 0 4 (Z.to_nat (n / 4))) st'
    /\ 0 <= diff < 2 ^ 32
    /\ (diff = 0 <-> agree a b (st_mem st) 0 (4 * (n / 4))).
Proof.
  intros Hfuel. unfold object_size, PTRDIFF_MAX in Hn.
  loop_rule
    (fun '((i, diff) : Z * Z) st' =>
       (0 <= i <= n /\ i mod 4 = 0) /\ st_mem st' = st_mem st
       /\ emitted (st_trace st)
                  (loop_events word_events 0 4 (Z.to_nat (i / 4)))
                  st'
       /\ 0 <= diff < 2 ^ 32
       /\ (diff = 0 <-> agree a b (st_mem st) 0 i))
    (fun s : Z * Z => Z.to_nat (n - fst s)).
  - intros [i diff] st1 (Hi & Hm & Ht & Hd & Hz) Hc.
    rewrite size_t_small in Hc by (unfold SIZE_MAX; lia).
    apply Z.leb_le in Hc.
    eexists (_, _), _. split; [mrun; reflexivity|].
    cbn [st_mem log st_trace fst].
    rewrite size_t_small by (unfold SIZE_MAX; lia).
    split; [|lia].
    split; [split; [lia | Z.to_euclidean_division_equations; lia]|].
    split; [assumption|]. split; [|split].
    + replace (Z.to_nat ((i + 4) / 4)) with (S (Z.to_nat (i / 4)))
        by (Z.to_euclidean_division_equations; lia).
      rewrite loop_events_S. apply emitted_app.
      red in Ht. cbn [log st_trace]. rewrite Ht.
      replace (0 + 4 * Z.of_nat (Z.to_nat (i / 4))) with i
        by (Z.to_euclidean_division_equations; lia).
      reflexivity.
    + apply uint32_range.
    + rewrite diff_step_zero by (assumption || apply word_at_range).
      rewrite Hz, agree_word, Hm by lia. tauto.
  - split; [split; [lia | reflexivity]|]. split; [reflexivity|].
    split; [|split].
    + apply emitted_nil.
    + lia.
    + unfold agree. split; [intros; lia | reflexivity].
  - cbn [fst]. lia.
  - destruct Hloop as ([i diff] & st' & Hrun & (Hi & Hm & Ht & Hd & Hz) & Hc).
    rewrite size_t_small in Hc by (unfold SIZE_MAX; lia).
    apply Z.leb_gt in Hc.
    assert (i = 4 * (n / 4)) as Ei
        by (Z.to_euclidean_division_equations; lia).
    rewrite <- Ei.
    exists diff, (log (EvBranch false) st').
    split; [assumption|]. split; [assumption|]. split; [|split; assumption].
    unfold loop_exit. apply emitted_app. cbn [log st_trace rev app].
    rewrite Ht. rewrite Ei at 1.
    replace (4 * (n / 4) / 4) with (n / 4)
      by (Z.to_euclidean_division_equations; lia).
    reflexivity.
Qed.

Lemma agree_split m lo mid hi :
  lo <= mid <= hi ->
  agree a b m lo hi <-> agree a b m lo mid /\ agree a b m mid hi.
Proof.
  intros Hmid. unfold agree. split.
  - intros H. split; intros j Hj; apply H; lia.
  - intros [H1 H2] j Hj.
    destruct (Z_lt_le_dec j mid); [apply H1 | apply H2]; lia.
Qed.

Lemma memcmp_spec fuel st :
  (Z.to_nat n < fuel)%nat ->
  exists r st',
    mbedtls_ct_memcmp cfg a b n fuel st = Some (r, st')
    /\ st_mem st' = st_mem st
    /\ emitted (st_trace st) (memcmp_events cfg a b n) st'
    /\ (r = 0 <-> agree a b (st_mem st) 0 n).
Proof.
  intros Hfuel. unfold mbedtls_ct_memcmp, memcmp_events, walk_events.
  pose proof Hn as Hn'. unfold object_size, PTRDIFF_MAX in Hn'.
  destruct (MBEDTLS_EFFICIENT_UNALIGNED_VOLATILE_ACCESS cfg).
  - destruct (memcmp_word_loop fuel st Hfuel)
      as (d1 & st1 & Hrun1 & Hm1 & Ht1 & Hd1 & Hz1).
    rewrite (bind_Some _ _ _ _ _ _ Hrun1).
    destruct (memcmp_byte_loop fuel st1 (4 * (n / 4)) d1)
      as (d2 & st2 & Hrun2 & Hm2 & Ht2 & Hd2 & Hz2);
      [Z.to_euclidean_division_equations; lia | assumption..|].
    rewrite (bind_Some _ _ _ _ _ _ Hrun2).
    exists (int_of_uint32 d2), st2. split; [reflexivity|].
    split; [congruence|]. split.
    + apply emitted_app. red in Ht1, Ht2. now rewrite Ht2, Ht1.
    + rewrite int_of_uint32_zero, Hz2, Hz1, Hm1 by assumption.
      symmetry. apply agree_split.
      Z.to_euclidean_division_equations; lia.
  - rewrite (bind_Some _ _ _ _ (0, 0) st eq_refl).
    destruct (memcmp_byte_loop fuel st 0 0)
      as (d2 & st2 & Hrun2 & Hm2 & Ht2 & Hd2 & Hz2);
      [lia | lia | assumption |].
    rewrite (bind_Some _ _ _ _ _ _ Hrun2).
    exists (int_of_uint32 d2), st2. split; [reflexivity|].
    split; [assumption|]. split.
    + now rewrite Z.sub_0_r in Ht2.
    + rewrite int_of_uint32_zero, Hz2 by assumption. tauto.
Qed.
End Memcmp.

(** ** Buffers in memory *)

(** Decides the comparisons of the goal. *)
Ltac zbool :=
  repeat match goal with
         | |- context [?x <=? ?y] => destruct (Z.leb_spec x y)
         | |- context [?x <? ?y] => destruct (Z.ltb_spec x y)
         | |- context [?x =? ?y] => destruct (Z.eqb_spec x y)
         end;
  cbn [andb orb negb].

(** Decides the comparisons of a hypothesis. *)
Ltac zbool_in H :=
  repeat match type of H with
         | context [?x <=? ?y] => destruct (Z.leb_spec x y)
         | context [?x <? ?y] => destruct (Z.ltb_spec x y)
         | context [?x =? ?y] => destruct (Z.eqb_spec x y)
         end;
  cbn [andb orb negb] in H.

Lemma unchanged_outside_refl p n m : unchanged_outside p n m m.
Proof. intros a _. reflexivity. Qed.

Lemma unchanged_outside_set p i m0 m v :
  0 <= i -> unchanged_outside p i m0 m ->
  unchanged_outside p (i + 1) m0 (mem_set m (p + i) v).
Proof.
  intros Hi H a Ha. unfold mem_set.
  destruct (Z.eqb_spec a (p + i)); [lia | apply H; lia].
Qed.

Lemma unchanged_outside_set_word cfg p i m0 m w :
  0 <= i -> unchanged_outside p i m0 m ->
  unchanged_outside p (i + 4) m0 (mem_set_word cfg m (p + i) w).
Proof.
  intros Hi H a Ha. unfold mem_set_word.
  zbool; [lia | apply H; lia ..].
Qed.

Lemma copied_zero sel dest m0 m : mem_eq m m0 -> copied sel dest 0 m0 m.
Proof. intros H a. rewrite H. zbool; reflexivity || lia. Qed.

Lemma copied_self dest i m0 m : copied dest dest i m0 m -> mem_eq m m0.
Proof.
  intros H a. rewrite H. zbool; [f_equal; lia | reflexivity ..].
Qed.

(** ** mbedtls_ct_memcpy_if *)

Section MemcpyIf.
Variables (cfg : config) (condition dest src1 src2 len : Z).
Hypothesis Hlen : object_size len.

Local Abbreviation the_src2 := (memcpy_if_src2 dest src2).
Local Abbreviation the_source := (memcpy_if_source condition dest src1 src2).
Local Abbreviation the_contract := (memcpy_if_pre condition dest src1 src2 len).
Local Abbreviation byte_events := (memcpy_if_byte_events dest src1 src2).
Local Abbreviation word_events := (memcpy_if_word_events dest src1 src2).

Lemma copied_byte m0 m i :
  the_contract -> 0 <= i < len ->
  copied the_source dest i m0 m ->
  copied the_source dest (i + 1) m0
    (mem_set m (dest + i)
       (Z.lor (Z.land (byte_at m (src1 + i)) (uint32_t condition))
              (Z.land (byte_at m (the_src2 + i))
                      (uint32_t (lnot64
                                   (mbedtls_ct_compiler_opaque condition)))))).
Proof.
  intros [Hc Hov] Hi H a.
  rewrite byte_at_mem_set, select32
    by (assumption || apply byte_small_word, byte_at_range).
  rewrite <- (chosen_app (fun p => byte_at m (p + i))).
  fold the_source. rewrite uchar_byte_at.
  rewrite (H (the_source + i)), (H a).
  unfold can_copy in Hov.
  zbool; try lia; try reflexivity; f_equal; lia.
Qed.

Lemma copied_word m0 m i :
  the_contract -> 0 <= i -> i + 4 <= len ->
  copied the_source dest i m0 m ->
  copied the_source dest (i + 4) m0
    (mem_set_word cfg m (dest + i)
       (Z.lor (Z.land (word_at cfg m (src1 + i)) (uint32_t condition))
              (Z.land (word_at cfg m (the_src2 + i))
                      (uint32_t (lnot64
                                   (mbedtls_ct_compiler_opaque condition)))))).
Proof.
  intros [Hc Hov] Hi Hi4 H a.
  rewrite byte_at_mem_set_word, select32
    by (assumption || apply word_of_bytes_range; apply byte_at_range).
  rewrite <- (chosen_app (fun p => word_at cfg m (p + i))).
  fold the_source. unfold can_copy in Hov.
  destruct ((dest + i <=? a) && (a <? dest + i + 4)) eqn:E.
  - rewrite byte_of_word_at by lia.
    rewrite (H (the_source + i + (a - (dest + i)))).
    zbool; try lia; f_equal; lia.
  - rewrite (H a). zbool_in E; zbool; try lia; try discriminate;
      reflexivity.
Qed.

Lemma memcpy_if_byte_loop fuel st m0 i0 :
  0 <= i0 <= len -> (Z.to_nat len < fuel)%nat ->
  unchanged_outside dest i0 m0 (st_mem st) ->
  (the_contract -> copied the_source dest i0 m0 (st_mem st)) ->
  exists st',
    for_loop (fun i => i <? len)
             (fun i =>
                x <- load8 (src1 + i) ;;
                y <- load8 (the_src2 + i) ;;
                store8 (dest + i)
                       (Z.lor (Z.land x (uint32_t condition))
                              (Z.land y
                                 (uint32_t
                                    (lnot64 (mbedtls_ct_compiler_opaque
                                               condition))))) ;;
                ret (size_t (i + 1)))
             i0 fuel st = Some (len, st')
    /\ unchanged_outside dest len m0 (st_mem st')
    /\ emitted (st_trace st)
               (loop_exit byte_events i0 1 (Z.to_nat (len - i0)))
               st'
    /\ (the_contract -> copied the_source dest len m0 (st_mem st')).
Proof.
  intros Hi0 Hfuel Hf0 Hc0. unfold object_size, PTRDIFF_MAX in Hlen.
  loop_rule
    (fun (i : Z) st' =>
       i0 <= i <= len
       /\ unchanged_outside dest i m0 (st_mem st')
       /\ emitted (st_trace st)
                  (loop_events byte_events i0 1
                               (Z.to_nat (i - i0))) st'
       /\ (the_contract ->
           copied the_source dest i m0 (st_mem st')))
    (fun i : Z => Z.to_nat (len - i)).
  - intros i st1 (Hi & Hf & Ht & Hcp) Hc. apply Z.ltb_lt in Hc.
    eexists _, _. split; [mrun; reflexivity|].
    cbn [st_mem log st_trace].
    rewrite size_t_small by (unfold SIZE_MAX; lia).
    split; [|lia]. split; [lia|]. split; [|split].
    + apply unchanged_outside_set; [lia | assumption].
    + replace (Z.to_nat (i + 1 - i0)) with (S (Z.to_nat (i - i0))) by lia.
      eapply emitted_iteration; [eassumption | reflexivity |].
      cbn [st_trace log]. unfold memcpy_if_byte_events.
      now replace (i0 + 1 * Z.of_nat (Z.to_nat (i - i0))) with i by lia.
    + intros Hpre. apply copied_byte; [assumption | lia | auto].
  - split; [lia|]. split; [assumption|]. split; [|assumption].
    rewrite Z.sub_diag. apply emitted_nil.
  - lia.
  - destruct Hloop as (i & st' & Hrun & (Hi & Hf & Ht & Hcp) & Hc).
    apply Z.ltb_ge in Hc. assert (i = len) as -> by lia.
    exists (log (EvBranch false) st').
    split; [assumption|]. split; [assumption|]. split; [|assumption].
    now apply emitted_exit.
Qed.

Lemma memcpy_if_word_loop fuel st :
  (Z.to_nat len < fuel)%nat ->
  exists st',
    for_loop (fun i => size_t (i + 4) <=? len)
             (fun i =>
                x <- mbedtls_get_unaligned_uint32 cfg (src1 + i) ;;
                let a := Z.land x (uint32_t condition) in
                y <- mbedtls_get_unaligned_uint32 cfg (the_src2 + i) ;;
                let b := Z.land y (uint32_t
                           (lnot64 (mbedtls_ct_compiler_opaque condition))) in
                mbedtls_put_unaligned_uint32 cfg (dest + i) (Z.lor a b) ;;
                ret (size_t (i + 4)))
             0 fuel st = Some (4 * (len / 4), st')
    /\ unchanged_outside dest (4 * (len / 4)) (st_mem st) (st_mem st')
    /\ emitted (st_trace st)
               (loop_exit word_events 0 4 (Z.to_nat (len / 4)))
               st'
    /\ (the_contract ->
        copied the_source dest (4 * (len / 4)) (st_mem st)
               (st_mem st')).
Proof.
  intros Hfuel. unfold object_size, PTRDIFF_MAX in Hlen.
  loop_rule
    (fun (i : Z) st' =>
       (0 <= i <= len /\ i mod 4 = 0)
       /\ unchanged_outside dest i (st_mem st) (st_mem st')
       /\ emitted (st_trace st)
                  (loop_events word_events 0 4
                               (Z.to_nat (i / 4))) st'
       /\ (the_contract ->
           copied the_source dest i (st_mem st) (st_mem st')))
    (fun i : Z => Z.to_nat (len - i)).
  - intros i st1 (Hi & Hf & Ht & Hcp) Hc.
    rewrite size_t_small in Hc by (unfold SIZE_MAX; lia).
    apply Z.leb_le in Hc.
    eexists _, _. split; [mrun; reflexivity|].
    cbn [st_mem log st_trace].
    rewrite size_t_small by (unfold SIZE_MAX; lia).
    split; [|lia].
    split; [split; [lia | Z.to_euclidean_division_equations; lia]|].
    split; [|split].
    + apply unchanged_outside_set_word; [lia | assumption].
    + replace (Z.to_nat ((i + 4) / 4)) with (S (Z.to_nat (i / 4)))
        by (Z.to_euclidean_division_equations; lia).
      eapply emitted_iteration; [eassumption | reflexivity |].
      cbn [st_trace log]. unfold memcpy_if_word_events.
      now replace (0 + 4 * Z.of_nat (Z.to_nat (i / 4))) with i
        by (Z.to_euclidean_division_equations; lia).
    + intros Hpre. apply copied_word; [assumption | lia | lia | auto].
  - split; [split; [lia | reflexivity]|].
    split; [apply unchanged_outside_refl|].
    split; [apply emitted_nil|].
    intros _. apply copied_zero, mem_eq_refl.
  - lia.
  - destruct Hloop as (i & st' & Hrun & (Hi & Hf & Ht & Hcp) & Hc).
    rewrite size_t_small in Hc by (unfold SIZE_MAX; lia).
    apply Z.leb_gt in Hc.
    assert (i = 4 * (len / 4)) as Ei
        by (Z.to_euclidean_division_equations; lia).
    assert (i / 4 = len / 4) as Ek
        by (Z.to_euclidean_division_equations; lia).
    rewrite Ek in Ht. rewrite <- Ei.
    exists (log (EvBranch false) st').
    split; [assumption|]. split; [assumption|]. split; [|assumption].
    now apply emitted_exit.
Qed.

(** The specification of a call: it returns, writes inside
    [dest[0..len)] only, leaks [memcpy_if_events], and under its contract
    leaves in [dest] the bytes of the selected source. *)
Lemma memcpy_if_spec fuel st :
  (Z.to_nat len < fuel)%nat ->
  exists st',
    mbedtls_ct_memcpy_if cfg condition dest src1 src2 len fuel st
    = Some (tt, st')
    /\ unchanged_outside dest len (st_mem st) (st_mem st')
    /\ emitted (st_trace st) (memcpy_if_events cfg dest src1 src2 len) st'
    /\ (the_contract ->
        copied the_source dest len (st_mem st) (st_mem st')).
Proof.
  intros Hfuel. unfold mbedtls_ct_memcpy_if, memcpy_if_events, walk_events.
  pose proof Hlen as Hlen'. unfold object_size, PTRDIFF_MAX in Hlen'.
  rewrite (bind_Some _ _ _ _ (src2 =? NULL)
                     (log (EvBranch (src2 =? NULL)) st) eq_refl).
  cbv beta zeta. fold the_src2.
  set (st0 := log (EvBranch (src2 =? NULL)) st).
  assert (Hst0 : emitted (st_trace st) [EvBranch (src2 =? NULL)] st0)
    by reflexivity.
  change (EvBranch (src2 =? NULL) :: ?l)
    with ([EvBranch (src2 =? NULL)] ++ l).
  change (st_mem st) with (st_mem st0).
  destruct (MBEDTLS_EFFICIENT_UNALIGNED_ACCESS cfg).
  - destruct (memcpy_if_word_loop fuel st0 Hfuel)
      as (st1 & Hrun1 & Hf1 & Ht1 & Hc1).
    rewrite (bind_Some _ _ _ _ _ _ Hrun1).
    destruct (memcpy_if_byte_loop fuel st1 (st_mem st0) (4 * (len / 4)))
      as (st2 & Hrun2 & Hf2 & Ht2 & Hc2);
      [Z.to_euclidean_division_equations; lia | assumption..|].
    rewrite (bind_Some _ _ _ _ _ _ Hrun2).
    exists st2. split; [reflexivity|]. split; [assumption|].
    split; [|assumption].
    eapply emitted_seq; [eassumption|].
    eapply emitted_seq; eassumption.
  - rewrite (bind_Some _ _ _ _ 0 st0 eq_refl).
    destruct (memcpy_if_byte_loop fuel st0 (st_mem st0) 0)
      as (st2 & Hrun2 & Hf2 & Ht2 & Hc2);
      [lia | assumption | apply unchanged_outside_refl
       | intros _; apply copied_zero, mem_eq_refl |].
    rewrite (bind_Some _ _ _ _ _ _ Hrun2).
    exists st2. split; [reflexivity|]. split; [assumption|].
    split; [|assumption].
    eapply emitted_seq; [eassumption|].
    now rewrite Z.sub_0_r in Ht2.
Qed.
End MemcpyIf.

(** ** mbedtls_ct_zeroize_if *)

Section ZeroizeIf.
Variables (cfg : config) (condition buf len : Z).
Hypothesis Hlen : object_size len.

Local Abbreviation byte_events := (zeroize_if_byte_events buf).
Local Abbreviation word_events := (zeroize_if_word_events buf).

Lemma cleared_zero m0 : cleared condition buf 0 m0 m0.
Proof. intros a. zbool; reflexivity || lia. Qed.

Lemma cleared_byte m0 m i :
  is_condition condition -> 0 <= i ->
  cleared condition buf i m0 m ->
  cleared condition buf (i + 1) m0
    (mem_set m (buf + i)
             (Z.land (byte_at m (buf + i)) (uint32_t (lnot64 condition)))).
Proof.
  intros Hc Hi H a.
  rewrite byte_at_mem_set, clear32
    by (assumption || apply byte_small_word, byte_at_range).
  rewrite (chosen_app uchar), uchar_byte_at, (H (buf + i)), (H a).
  zbool; try lia; try reflexivity; subst; reflexivity.
Qed.

Lemma cleared_word m0 m i :
  is_condition condition -> 0 <= i ->
  cleared condition buf i m0 m ->
  cleared condition buf (i + 4) m0
    (mem_set_word cfg m (buf + i)
       (Z.land (word_at cfg m (buf + i)) (uint32_t (lnot64 condition)))).
Proof.
  intros Hc Hi H a.
  rewrite byte_at_mem_set_word, clear32
    by (assumption || apply word_of_bytes_range; apply byte_at_range).
  destruct ((buf + i <=? a) && (a <? buf + i + 4)) eqn:E.
  - rewrite (chosen_app (fun w => byte_of_word cfg w (a - (buf + i)))).
    rewrite byte_of_word_zero, byte_of_word_at by lia.
    replace (buf + i + (a - (buf + i))) with a by lia.
    rewrite (H a). zbool; try lia; reflexivity.
  - rewrite (H a). zbool_in E; zbool; try lia; try discriminate;
      reflexivity.
Qed.

Lemma zeroize_if_byte_loop fuel st m0 i0 :
  0 <= i0 <= len -> (Z.to_nat len < fuel)%nat ->
  unchanged_outside buf i0 m0 (st_mem st) ->
  (is_condition condition -> cleared condition buf i0 m0 (st_mem st)) ->
  exists st',
    for_loop (fun i => i <? len)
             (fun i =>
                x <- load8 (buf + i) ;;
                store8 (buf + i) (Z.land x (uint32_t (lnot64 condition))) ;;
                ret (size_t (i + 1)))
             i0 fuel st = Some (len, st')
    /\ unchanged_outside buf len m0 (st_mem st')
    /\ emitted (st_trace st)
               (loop_exit byte_events i0 1 (Z.to_nat (len - i0)))
               st'
    /\ (is_condition condition -> cleared condition buf len m0 (st_mem st')).
Proof.
  intros Hi0 Hfuel Hf0 Hc0. unfold object_size, PTRDIFF_MAX in Hlen.
  loop_rule
    (fun (i : Z) st' =>
       i0 <= i <= len
       /\ unchanged_outside buf i m0 (st_mem st')
       /\ emitted (st_trace st)
                  (loop_events byte_events i0 1
                               (Z.to_nat (i - i0))) st'
       /\ (is_condition condition ->
           cleared condition buf i m0 (st_mem st')))
    (fun i : Z => Z.to_nat (len - i)).
  - intros i st1 (Hi & Hf & Ht & Hcl) Hc. apply Z.ltb_lt in Hc.
    eexists _, _. split; [mrun; reflexivity|].
    cbn [st_mem log st_trace].
    rewrite size_t_small by (unfold SIZE_MAX; lia).
    split; [|lia]. split; [lia|]. split; [|split].
    + apply unchanged_outside_set; [lia | assumption].
    + replace (Z.to_nat (i + 1 - i0)) with (S (Z.to_nat (i - i0))) by lia.
      eapply emitted_iteration; [eassumption | reflexivity |].
      cbn [st_trace log]. unfold zeroize_if_byte_events.
      now replace (i0 + 1 * Z.of_nat (Z.to_nat (i - i0))) with i by lia.
    + intros Hcond. apply cleared_byte; [assumption | lia | auto].
  - split; [lia|]. split; [assumption|]. split; [|assumption].
    rewrite Z.sub_diag. apply emitted_nil.
  - lia.
  - destruct Hloop as (i & st' & Hrun & (Hi & Hf & Ht & Hcl) & Hc).
    apply Z.ltb_ge in Hc. assert (i = len) as -> by lia.
    exists (log (EvBranch false) st').
    split; [assumption|]. split; [assumption|]. split; [|assumption].
    now apply emitted_exit.
Qed.

Lemma zeroize_if_word_loop fuel st :
  (Z.to_nat len < fuel)%nat ->
  exists st',
    for_loop (fun i => size_t (i + 4) <=? len)
             (fun i =>
                x <- mbedtls_get_unaligned_uint32 cfg (buf + i) ;;
                mbedtls_put_unaligned_uint32 cfg (buf + i)
                  (Z.land x (uint32_t (lnot64 condition))) ;;
                ret (size_t (i + 4)))
             0 fuel st = Some (4 * (len / 4), st')
    /\ unchanged_outside buf (4 * (len / 4)) (st_mem st) (st_mem st')
    /\ emitted (st_trace st)
               (loop_exit word_events 0 4 (Z.to_nat (len / 4)))
               st'
    /\ (is_condition condition ->
        cleared condition buf (4 * (len / 4)) (st_mem st) (st_mem st')).
Proof.
  intros Hfuel. unfold object_size, PTRDIFF_MAX in Hlen.
  loop_rule
    (fun (i : Z) st' =>
       (0 <= i <= len /\ i mod 4 = 0)
       /\ unchanged_outside buf i (st_mem st) (st_mem st')
       /\ emitted (st_trace st)
                  (loop_events word_events 0 4
                               (Z.to_nat (i / 4))) st'
       /\ (is_condition condition ->
           cleared condition buf i (st_mem st) (st_mem st')))
    (fun i : Z => Z.to_nat (len - i)).
  - intros i st1 (Hi & Hf & Ht & Hcl) Hc.
    rewrite size_t_small in Hc by (unfold SIZE_MAX; lia).
    apply Z.leb_le in Hc.
    eexists _, _. split; [mrun; reflexivity|].
    cbn [st_mem log st_trace].
    rewrite size_t_small by (unfold SIZE_MAX; lia).
    split; [|lia].
    split; [split; [lia | Z.to_euclidean_division_equations; lia]|].
    split; [|split].
    + apply unchanged_outside_set_word; [lia | assumption].
    + replace (Z.to_nat ((i + 4) / 4)) with (S (Z.to_nat (i / 4)))
        by (Z.to_euclidean_division_equations; lia).
      eapply emitted_iteration; [eassumption | reflexivity |].
      cbn [st_trace log]. unfold zeroize_if_word_events.
      now replace (0 + 4 * Z.of_nat (Z.to_nat (i / 4))) with i
        by (Z.to_euclidean_division_equations; lia).
    + intros Hcond. apply cleared_word; [assumption | lia | auto].
  - split; [split; [lia | reflexivity]|].
    split; [apply unchanged_outside_refl|].
    split; [apply emitted_nil|].
    intros _. apply cleared_zero.
  - lia.
  - destruct Hloop as (i & st' & Hrun & (Hi & Hf & Ht & Hcl) & Hc).
    rewrite size_t_small in Hc by (unfold SIZE_MAX; lia).
    apply Z.leb_gt in Hc.
    assert (i = 4 * (len / 4)) as Ei
        by (Z.to_euclidean_division_equations; lia).
    assert (i / 4 = len / 4) as Ek
        by (Z.to_euclidean_division_equations; lia).
    rewrite Ek in Ht. rewrite <- Ei.
    exists (log (EvBranch false) st').
    split; [assumption|]. split; [assumption|]. split; [|assumption].
    now apply emitted_exit.
Qed.

Lemma zeroize_if_spec fuel st :
  (Z.to_nat len < fuel)%nat ->
  exists st',
    mbedtls_ct_zeroize_if cfg condition buf len fuel st = Some (tt, st')
    /\ unchanged_outside buf len (st_mem st) (st_mem st')
    /\ emitted (st_trace st) (zeroize_if_events cfg buf len) st'
    /\ (is_condition condition ->
        cleared condition buf len (st_mem st) (st_mem st')).
Proof.
  intros Hfuel. unfold mbedtls_ct_zeroize_if, zeroize_if_events, walk_events.
  pose proof Hlen as Hlen'. unfold object_size, PTRDIFF_MAX in Hlen'.
  cbv zeta.
  destruct (MBEDTLS_EFFICIENT_UNALIGNED_ACCESS cfg).
  - destruct (zeroize_if_word_loop fuel st Hfuel)
      as (st1 & Hrun1 & Hf1 & Ht1 & Hc1).
    rewrite (bind_Some _ _ _ _ _ _ Hrun1).
    destruct (zeroize_if_byte_loop fuel st1 (st_mem st) (4 * (len / 4)))
      as (st2 & Hrun2 & Hf2 & Ht2 & Hc2);
      [Z.to_euclidean_division_equations; lia | assumption..|].
    rewrite (bind_Some _ _ _ _ _ _ Hrun2).
    exists st2. split; [reflexivity|]. split; [assumption|].
    split; [|assumption].
    eapply emitted_seq; eassumption.
  - rewrite (bind_Some _ _ _ _ 0 st eq_refl).
    destruct (zeroize_if_byte_loop fuel st (st_mem st) 0)
      as (st2 & Hrun2 & Hf2 & Ht2 & Hc2);
      [lia | assumption | apply unchanged_outside_refl
       | intros _; apply cleared_zero |].
    rewrite (bind_Some _ _ _ _ _ _ Hrun2).
    exists st2. split; [reflexivity|]. split; [assumption|].
    split; [|assumption].
    now rewrite Z.sub_0_r in Ht2.
Qed.
End ZeroizeIf.

(** ** mbedtls_ct_memcpy_offset *)

Lemma unchanged_outside_trans p n m0 m1 m2 :
  unchanged_outside p n m0 m1 -> unchanged_outside p n m1 m2 ->
  unchanged_outside p n m0 m2.
Proof. intros H1 H2 a Ha. rewrite H2, H1 by assumption. reflexivity. Qed.

Lemma copied_after sel dest i m0 m1 m2 :
  copied sel dest i m0 m1 -> mem_eq m2 m1 -> copied sel dest i m0 m2.
Proof. intros H E a. rewrite E. apply H. Qed.

Lemma copied_before sel dest i m0 m1 m2 :
  mem_eq m1 m0 -> copied sel dest i m1 m2 -> copied sel dest i m0 m2.
Proof. intros E H a. rewrite H, !E. reflexivity. Qed.

Section MemcpyOffset.
Variables (cfg : config) (dest src offset offset_min offset_max len : Z).
Hypothesis Hlen : object_size len.
Hypothesis Hmin : is_size_t offset_min.
Hypothesis Hmax : offset_max < SIZE_MAX.

Lemma memcpy_offset_spec fuel st :
  (Z.to_nat len < fuel)%nat ->
  (candidates offset_min offset_max < fuel)%nat ->
  exists st',
    mbedtls_ct_memcpy_offset cfg dest src offset offset_min offset_max len
                             fuel st = Some (tt, st')
    /\ unchanged_outside dest len (st_mem st) (st_mem st')
    /\ emitted (st_trace st)
               (memcpy_offset_events cfg dest src offset_min offset_max len)
               st'
    /\ (~ in_range offset offset_min offset_max ->
        mem_eq (st_mem st') (st_mem st))
    /\ (in_range offset offset_min offset_max ->
        can_copy (src + offset) dest len ->
        copied (src + offset) dest len (st_mem st) (st_mem st')).
Proof.
  intros Hfuel Hcand. unfold mbedtls_ct_memcpy_offset, candidates in *.
  unfold is_size_t, SIZE_MAX in *. unfold bind at 1.
  loop_rule
    (fun (v : Z) st' =>
       (offset_min <= v /\ (v <= offset_max + 1 \/ v = offset_min))
       /\ unchanged_outside dest len (st_mem st) (st_mem st')
       /\ emitted (st_trace st)
            (loop_events
               (fun v => memcpy_if_events cfg dest (src + v) NULL len)
               offset_min 1 (Z.to_nat (v - offset_min))) st'
       /\ (~ (offset_min <= offset < v) -> mem_eq (st_mem st') (st_mem st))
       /\ (offset_min <= offset < v -> can_copy (src + offset) dest len ->
           copied (src + offset) dest len (st_mem st) (st_mem st')))
    (fun v : Z => Z.to_nat (offset_max + 1 - v)).
  - intros v st1 (Hv & Hf & Ht & Hne & Heq) Hc. apply Z.leb_le in Hc.
    destruct (memcpy_if_spec cfg (mbedtls_ct_uint_eq v offset) dest
                             (src + v) NULL len Hlen fuel
                             (log (EvBranch true) st1) Hfuel)
      as (st2 & Hrun & Hf2 & Ht2 & Hcp).
    rewrite (bind_Some _ _ _ _ _ _ Hrun). unfold ret.
    rewrite size_t_small by (unfold SIZE_MAX; lia).
    eexists _, _. split; [reflexivity|]. split; [|lia].
    cbn [st_mem log] in Hf2, Hcp.
    unfold memcpy_if_pre, memcpy_if_source, memcpy_if_src2 in Hcp.
    unfold mbedtls_ct_uint_eq in Hcp. rewrite chosen_bool in Hcp.
    change (NULL =? NULL) with true in Hcp. cbv iota in Hcp.
    split; [lia|]. split; [|split; [|split]].
    + eapply unchanged_outside_trans; eassumption.
    + replace (Z.to_nat (v + 1 - offset_min))
        with (S (Z.to_nat (v - offset_min))) by lia.
      eapply emitted_iteration; [eassumption | reflexivity |].
      red in Ht2. cbn [log st_trace] in Ht2. rewrite Ht2.
      now replace (offset_min + 1 * Z.of_nat (Z.to_nat (v - offset_min)))
        with v by lia.
    + intros Hn. destruct (Z.eqb_spec v offset) as [E | E]; [lia|].
      eapply mem_eq_trans; [|apply Hne; lia].
      eapply copied_self, Hcp.
      split; [apply is_condition_bool | left; lia].
    + intros Hr Hcan. destruct (Z.eqb_spec v offset) as [E | E].
      * subst v. eapply copied_before; [apply Hne; lia|].
        apply Hcp. split; [apply is_condition_bool | assumption].
      * eapply copied_after; [apply Heq; [lia | assumption]|].
        eapply copied_self, Hcp.
        split; [apply is_condition_bool | left; lia].
  - split; [lia|]. split; [apply unchanged_outside_refl|].
    split; [rewrite Z.sub_diag; apply emitted_nil|].
    split; [intros _; apply mem_eq_refl | intros; lia].
  - lia.
  - destruct Hloop as (v & st' & Hrun & (Hv & Hf & Ht & Hne & Heq) & Hc).
    apply Z.leb_gt in Hc. rewrite Hrun. unfold ret.
    exists (log (EvBranch false) st'). split; [reflexivity|].
    split; [assumption|]. unfold in_range. split; [|split].
    + unfold memcpy_offset_events, candidates.
      replace (Z.to_nat (offset_max + 1 - offset_min))
        with (Z.to_nat (v - offset_min)) by lia.
      now apply emitted_exit.
    + intros Hn. apply Hne. lia.
    + intros Hr Hcan. apply Heq; [lia | assumption].
Qed.
End MemcpyOffset.

(** The bound on [offset_max] is needed: the counter of the loop cannot
    exceed [SIZE_MAX], so with [offset_max = SIZE_MAX], which no source
    buffer allows, the call does not return. *)
Lemma memcpy_offset_spins cfg dest src offset offset_min len fuel st :
  is_size_t offset_min ->
  mbedtls_ct_memcpy_offset cfg dest src offset offset_min SIZE_MAX len
                           fuel st = None.
Proof.
  intros Hmin. unfold mbedtls_ct_memcpy_offset, bind at 1, for_loop.
  rewrite (iterate_spins is_size_t); [reflexivity | | | assumption].
  - intros v Hv. apply Z.leb_le, Hv.
  - intros v st0 v' st' _ Hb. unfold bind, ret in Hb.
    destruct (mbedtls_ct_memcpy_if _ _ _ _ _ _ _ _) as [[[] st1]|];
      [|discriminate].
    injection Hb as <- _. unfold is_size_t, size_t, SIZE_MAX.
    pose proof (Z.mod_pos_bound (v + 1) (2 ^ 64) eq_refl). lia.
Qed.

(** ** mbedtls_ct_memmove_left *)

Section MemmoveLeft.
Variables (start total offset : Z).
Hypothesis Htotal : object_size total.

Local Abbreviation inner_events := (memmove_inner_events start).
Local Abbreviation pass_events := (memmove_pass_events start total).

Lemma passed_step c m1 m n :
  is_condition c -> 0 <= n ->
  passed start c n m1 m ->
  passed start c (n + 1) m1
    (mem_set m (start + n)
       (mbedtls_ct_uint_if c (byte_at m (start + n))
                           (byte_at m (start + (n + 1))))).
Proof.
  intros Hc Hn H a.
  pose proof (byte_at_range m (start + n)).
  pose proof (byte_at_range m (start + (n + 1))).
  rewrite byte_at_mem_set, uint_if_chosen by (assumption || lia).
  rewrite (chosen_app uchar), !uchar_byte_at.
  rewrite (H (start + n)), (H (start + (n + 1))), (H a).
  zbool; try lia; try reflexivity; subst; f_equal; f_equal; lia.
Qed.

Lemma memmove_inner_loop fuel st c :
  is_condition c -> 1 <= total -> (Z.to_nat total < fuel)%nat ->
  exists st',
    for_loop (fun n => n <? size_t (total - 1))
             (fun n =>
                current <- load8 (start + n) ;;
                next <- load8 (start + size_t (n + 1)) ;;
                store8 (start + n) (mbedtls_ct_uint_if c current next) ;;
                ret (size_t (n + 1)))
             0 fuel st = Some (total - 1, st')
    /\ unchanged_outside start (total - 1) (st_mem st) (st_mem st')
    /\ emitted (st_trace st)
               (loop_exit inner_events 0 1 (Z.to_nat (total - 1)))
               st'
    /\ passed start c (total - 1) (st_mem st) (st_mem st').
Proof.
  intros Hcond Hpos Hfuel. unfold object_size, PTRDIFF_MAX in Htotal.
  rewrite (size_t_small (total - 1)) by (unfold SIZE_MAX; lia).
  loop_rule
    (fun (n : Z) st' =>
       0 <= n <= total - 1
       /\ unchanged_outside start n (st_mem st) (st_mem st')
       /\ emitted (st_trace st)
                  (loop_events inner_events 0 1 (Z.to_nat n)) st'
       /\ passed start c n (st_mem st) (st_mem st'))
    (fun n : Z => Z.to_nat (total - 1 - n)).
  - intros n st1 (Hn & Hf & Ht & Hp) Hc. apply Z.ltb_lt in Hc.
    eexists _, _. split; [mrun; reflexivity|].
    cbn [st_mem log st_trace].
    rewrite size_t_small by (unfold SIZE_MAX; lia).
    split; [|lia]. split; [lia|]. split; [|split].
    + apply unchanged_outside_set; [lia | assumption].
    + replace (Z.to_nat (n + 1)) with (S (Z.to_nat n)) by lia.
      eapply emitted_iteration; [eassumption | reflexivity |].
      cbn [st_trace log]. unfold memmove_inner_events.
      now replace (0 + 1 * Z.of_nat (Z.to_nat n)) with n by lia.
    + apply passed_step; [assumption | lia | assumption].
  - split; [lia|]. split; [apply unchanged_outside_refl|].
    split; [apply emitted_nil|].
    intros a. zbool; reflexivity || lia.
  - lia.
  - destruct Hloop as (n & st' & Hrun & (Hn & Hf & Ht & Hp) & Hc).
    apply Z.ltb_ge in Hc. assert (n = total - 1) as -> by lia.
    exists (log (EvBranch false) st').
    split; [assumption|]. split; [assumption|]. split; [|assumption].
    now apply emitted_exit.
Qed.

Lemma passed_last c m1 m :
  is_condition c -> 1 <= total ->
  passed start c (total - 1) m1 m ->
  one_pass start total c m1
    (mem_set m (start + (total - 1))
       (mbedtls_ct_uint_if_else_0 c (byte_at m (start + (total - 1))))).
Proof.
  intros Hc Hpos H a.
  pose proof (byte_at_range m (start + (total - 1))).
  rewrite byte_at_mem_set, uint_if_else_0_chosen by (assumption || lia).
  rewrite (chosen_app uchar), !uchar_byte_at.
  rewrite (H (start + (total - 1))), (H a).
  zbool; try lia; try reflexivity; subst; reflexivity.
Qed.

Lemma shifted_pass i m0 m1 m2 :
  0 <= offset <= total -> 0 <= i < total ->
  shifted start total (Z.max 0 (i - (total - offset))) m0 m1 ->
  one_pass start total (mbedtls_ct_bool (i <? total - offset)) m1 m2 ->
  shifted start total (Z.max 0 (i + 1 - (total - offset))) m0 m2.
Proof.
  intros Hoffset Hi H1 H2 a. rewrite (H2 a), chosen_bool.
  rewrite (H1 a), (H1 (a + 1)).
  zbool; try lia; try reflexivity; f_equal; lia.
Qed.

(** The specification of a call: it returns, writes inside
    [start[0..total)] only, leaks [memmove_left_events], and for an offset
    within the buffer moves the bytes left by [offset]. *)
Lemma memmove_left_spec fuel st :
  (Z.to_nat total < fuel)%nat ->
  exists st',
    mbedtls_ct_memmove_left start total offset fuel st = Some (tt, st')
    /\ unchanged_outside start total (st_mem st) (st_mem st')
    /\ emitted (st_trace st) (memmove_left_events start total) st'
    /\ (0 <= offset <= total ->
        shifted start total offset (st_mem st) (st_mem st')).
Proof.
  intros Hfuel. unfold mbedtls_ct_memmove_left. cbv zeta.
  pose proof Htotal as Ht'. unfold object_size, PTRDIFF_MAX in Ht'.
  unfold bind at 1.
  loop_rule
    (fun (i : Z) st' =>
       0 <= i <= total
       /\ unchanged_outside start total (st_mem st) (st_mem st')
       /\ emitted (st_trace st)
                  (loop_events pass_events 0 1 (Z.to_nat i)) st'
       /\ (0 <= offset <= total ->
           shifted start total (Z.max 0 (i - (total - offset))) (st_mem st)
                   (st_mem st')))
    (fun i : Z => Z.to_nat (total - i)).
  - intros i st1 (Hi & Hf & Ht & Hs) Hc. apply Z.ltb_lt in Hc.
    unfold mbedtls_ct_uint_gt.
    destruct (memmove_inner_loop fuel (log (EvBranch true) st1)
                (mbedtls_ct_bool (i <? size_t (total - offset))))
      as (st2 & Hrun & Hf2 & Ht2 & Hp);
      [apply is_condition_bool | lia | assumption |].
    rewrite (bind_Some _ _ _ _ _ _ Hrun).
    rewrite (size_t_small (total - 1)) by (unfold SIZE_MAX; lia).
    eexists _, _. split; [mrun; reflexivity|].
    cbn [st_mem log st_trace] in *.
    rewrite size_t_small by (unfold SIZE_MAX; lia).
    split; [|lia]. split; [lia|]. split; [|split].
    + eapply unchanged_outside_trans; [eassumption|].
      replace total with (total - 1 + 1) at 1 by lia.
      apply unchanged_outside_set; [lia|].
      intros a Ha. apply Hf2. lia.
    + replace (Z.to_nat (i + 1)) with (S (Z.to_nat i)) by lia.
      eapply emitted_iteration; [eassumption | reflexivity |].
      cbn [st_trace log]. red in Ht2. rewrite Ht2.
      unfold memmove_pass_events. rewrite rev_app_distr.
      cbn [rev app st_trace log]. reflexivity.
    + intros Hoffset.
      eapply shifted_pass; [assumption | lia | auto |].
      rewrite <- (size_t_small (total - offset)) at 1
        by (unfold SIZE_MAX; lia).
      apply passed_last; [apply is_condition_bool | lia | assumption].
  - split; [lia|]. split; [apply unchanged_outside_refl|].
    split; [apply emitted_nil|].
    intros Hoffset a.
    replace (Z.max 0 (0 - (total - offset))) with 0 by lia.
    zbool; try lia; try reflexivity; f_equal; lia.
  - lia.
  - destruct Hloop as (i & st' & Hrun & (Hi & Hf & Ht & Hs) & Hc).
    apply Z.ltb_ge in Hc. assert (i = total) as -> by lia.
    rewrite Hrun. unfold ret.
    exists (log (EvBranch false) st'). split; [reflexivity|].
    split; [assumption|]. split; [now apply emitted_exit|].
    intros Hoffset. specialize (Hs Hoffset).
    now replace (Z.max 0 (total - (total - offset))) with offset in Hs
      by lia.
Qed.
End MemmoveLeft.

(** ** Buffers as lists of bytes *)

Lemma bytes_length m p n : length (bytes m p n) = n.
Proof. unfold bytes. now rewrite length_map, length_seq. Qed.

Lemma nth_bytes m p n k :
  (k < n)%nat -> nth k (bytes m p n) 0 = byte_at m (p + Z.of_nat k).
Proof.
  intros Hk. unfold bytes.
  rewrite (nth_indep _ 0 ((fun k => byte_at m (p + Z.of_nat k)) O))
    by now rewrite length_map, length_seq.
  rewrite (map_nth (fun k => byte_at m (p + Z.of_nat k))).
  now rewrite seq_nth.
Qed.

Lemma bytes_eq_iff m p m' q n :
  bytes m p n = bytes m' q n
  <-> forall j, 0 <= j < Z.of_nat n -> byte_at m (p + j) = byte_at m' (q + j).
Proof.
  split.
  - intros E j Hj.
    replace j with (Z.of_nat (Z.to_nat j)) by lia.
    rewrite <- !(nth_bytes _ _ n) by lia. now rewrite E.
  - intros H. apply (nth_ext _ _ 0 0).
    + now rewrite !bytes_length.
    + intros k Hk. rewrite bytes_length in Hk.
      rewrite !nth_bytes by assumption. apply H. lia.
Qed.

Lemma bytes_mem_eq m m' p n : mem_eq m m' -> bytes m p n = bytes m' p n.
Proof. intros E. apply bytes_eq_iff. intros j _. apply E. Qed.

Lemma bytes_copied sel dest len m0 m :
  0 <= len -> copied sel dest len m0 m ->
  bytes m dest (Z.to_nat len) = bytes m0 sel (Z.to_nat len).
Proof.
  intros Hlen H. apply bytes_eq_iff. intros j Hj. rewrite (H (dest + j)).
  zbool; try lia. f_equal. lia.
Qed.

Lemma bytes_cleared p len m0 m :
  0 <= len -> cleared MBEDTLS_CT_TRUE p len m0 m ->
  bytes m p (Z.to_nat len) = repeat 0 (Z.to_nat len).
Proof.
  intros Hlen H. apply (nth_ext _ _ 0 0).
  - now rewrite bytes_length, repeat_length.
  - intros k Hk. rewrite bytes_length in Hk.
    rewrite nth_bytes, nth_repeat by assumption.
    rewrite (H (p + Z.of_nat k)). zbool; try lia. reflexivity.
Qed.

Lemma mem_eq_cleared p len m0 m :
  cleared MBEDTLS_CT_FALSE p len m0 m -> mem_eq m m0.
Proof. intros H a. rewrite (H a). zbool; reflexivity. Qed.

Lemma bytes_shifted start total offset m0 m :
  0 <= offset <= total -> shifted start total offset m0 m ->
  bytes m start (Z.to_nat total)
  = skipn (Z.to_nat offset) (bytes m0 start (Z.to_nat total))
    ++ repeat 0 (Z.to_nat offset).
Proof.
  intros Ho H. apply (nth_ext _ _ 0 0).
  - rewrite length_app, length_skipn, !bytes_length, repeat_length. lia.
  - intros k Hk. rewrite bytes_length in Hk.
    rewrite nth_bytes by assumption. rewrite (H (start + Z.of_nat k)).
    destruct (Z.ltb_spec (start + Z.of_nat k + offset) (start + total)).
    + rewrite app_nth1 by (rewrite length_skipn, bytes_length; lia).
      rewrite nth_skipn, nth_bytes by lia.
      zbool; try lia. f_equal. lia.
    + rewrite app_nth2 by (rewrite length_skipn, bytes_length; lia).
      rewrite nth_repeat. zbool; lia || reflexivity.
Qed.

Lemma agree_bytes a b m n :
  0 <= n ->
  agree a b m 0 n <-> bytes m a (Z.to_nat n) = bytes m b (Z.to_nat n).
Proof.
  intros Hn. rewrite bytes_eq_iff. unfold agree.
  split; intros H j Hj; apply H; lia.
Qed.

(** * The properties of the operations *)

(** C1.  For two buffers [a] and [b] of [n] bytes, [mbedtls_ct_memcmp]
    returns, and its result is zero exactly when the buffers hold the same
    [n] bytes; in particular the result is zero when a buffer is compared with
    itself, and when [n] is zero. *)
Theorem memcmp_zero_iff_equal (cfg : config) (a b n : Z) (m : mem)
        (fuel : nat) :
  object_size n -> (Z.to_nat n < fuel)%nat ->
  exists r st',
    run (mbedtls_ct_memcmp cfg a b n) fuel m = Some (r, st')
    /\ (r = 0 <-> bytes m a (Z.to_nat n) = bytes m b (Z.to_nat n))
    /\ (a = b -> r = 0)
    /\ (n = 0 -> r = 0).
Proof.
  intros Hn Hfuel.
  destruct (memcmp_spec cfg a b n Hn fuel (mkState m []) Hfuel)
    as (r & st' & Hrun & _ & _ & Hr).
  cbn [st_mem] in Hr. rewrite agree_bytes in Hr by apply Hn.
  exists r, st'. split; [exact Hrun|]. split; [exact Hr|]. split.
  - intros ->. now apply Hr.
  - intros ->. now apply Hr.
Qed.

Lemma memcmp_zero_iff_equal_witness :
  object_size 6 /\ (Z.to_nat 6 < 8)%nat
  /\ exists r st',
      run (mbedtls_ct_memcmp aarch64 100 200 6) 8
          (mem_of 100 [1; 2; 3; 4; 5; 6]) = Some (r, st')
      /\ (r = 0 <-> bytes (mem_of 100 [1; 2; 3; 4; 5; 6]) 100 (Z.to_nat 6)
                    = bytes (mem_of 100 [1; 2; 3; 4; 5; 6]) 200 (Z.to_nat 6))
      /\ (100 = 200 -> r = 0)
      /\ (6 = 0 -> r = 0).
Proof.
  assert (H6 : object_size 6) by (unfold object_size, PTRDIFF_MAX; lia).
  assert (Hf : (Z.to_nat 6 < 8)%nat) by (simpl; lia).
  split; [exact H6|]. split; [exact Hf|].
  exact (memcmp_zero_iff_equal aarch64 100 200 6
           (mem_of 100 [1; 2; 3; 4; 5; 6]) 8 H6 Hf).
Defined.


(** C2.  For a buffer of [total] bytes and an offset with
    [0 <= offset <= total], [mbedtls_ct_memmove_left] returns and leaves the
    buffer holding its original bytes moved left by [offset], the last
    [offset] bytes being zero; in particular the buffer is unchanged for
    [offset = 0], all-zero for [offset = total], and [[1,2,3,4,5,6,7,8]]
    moved by 3 becomes [[4,5,6,7,8,0,0,0]]. *)
Theorem memmove_left_shifts (start total offset : Z) (m : mem) (fuel : nat) :
  object_size total -> 0 <= offset <= total -> (Z.to_nat total < fuel)%nat ->
  exists st',
    run (mbedtls_ct_memmove_left start total offset) fuel m = Some (tt, st')
    /\ bytes (st_mem st') start (Z.to_nat total)
       = skipn (Z.to_nat offset) (bytes m start (Z.to_nat total))
         ++ repeat 0 (Z.to_nat offset)
    /\ (offset = 0 ->
        bytes (st_mem st') start (Z.to_nat total)
        = bytes m start (Z.to_nat total))
    /\ (offset = total ->
        bytes (st_mem st') start (Z.to_nat total)
        = repeat 0 (Z.to_nat total))
    /\ (total = 8 -> offset = 3 ->
        bytes m start 8 = [1; 2; 3; 4; 5; 6; 7; 8] ->
        bytes (st_mem st') start 8 = [4; 5; 6; 7; 8; 0; 0; 0]).
Proof.
  intros Htotal Hoffset Hfuel.
  destruct (memmove_left_spec start total offset Htotal fuel (mkState m [])
                              Hfuel) as (st' & Hrun & _ & _ & Hs).
  specialize (Hs Hoffset). cbn [st_mem] in Hs.
  apply bytes_shifted in Hs; [|assumption].
  exists st'. split; [exact Hrun|]. split; [exact Hs|]. split; [|split].
  - intros ->. rewrite Hs. cbn [Z.to_nat skipn repeat]. apply app_nil_r.
  - intros ->. rewrite Hs.
    rewrite skipn_all2 by (rewrite bytes_length; lia). reflexivity.
  - intros -> -> Hm. change (Z.to_nat 8) with 8%nat in Hs.
    rewrite Hs, Hm. reflexivity.
Qed.

Lemma memmove_left_shifts_witness :
  object_size 8 /\ 0 <= 3 <= 8 /\ (Z.to_nat 8 < 9)%nat
  /\ exists st',
      run (mbedtls_ct_memmove_left 100 8 3) 9
          (mem_of 100 [1; 2; 3; 4; 5; 6; 7; 8]) = Some (tt, st')
      /\ bytes (st_mem st') 100 8 = [4; 5; 6; 7; 8; 0; 0; 0].
Proof.
  assert (H8 : object_size 8) by (unfold object_size, PTRDIFF_MAX; lia).
  assert (Ho : 0 <= 3 <= 8) by lia.
  assert (Hf : (Z.to_nat 8 < 9)%nat) by (simpl; lia).
  split; [exact H8|]. split; [exact Ho|]. split; [exact Hf|].
  destruct (memmove_left_shifts 100 8 3 (mem_of 100 [1; 2; 3; 4; 5; 6; 7; 8])
                                9 H8 Ho Hf)
    as (st' & Hrun & _ & _ & _ & Hex).
  exists st'. split; [exact Hrun|].
  exact (Hex eq_refl eq_refl eq_refl).
Defined.

(** C3.  For a valid condition, [mbedtls_ct_memcpy_if] returns and leaves in
    the first [len] bytes of [dest] those of [src1] when the condition is
    true and those of [src2] when it is false; with [src2 = NULL] and a false
    condition [dest] keeps its contents; [len = 0] changes nothing.  A
    source is the destination itself or a buffer that the forward copy does
    not overwrite before reading it ([can_copy]). *)
Theorem memcpy_if_selects (cfg : config) (c dest src1 src2 len : Z) (m : mem)
        (fuel : nat) :
  object_size len -> is_condition c -> (Z.to_nat len < fuel)%nat ->
  exists st',
    run (mbedtls_ct_memcpy_if cfg c dest src1 src2 len) fuel m
    = Some (tt, st')
    /\ (c = MBEDTLS_CT_TRUE -> can_copy src1 dest len ->
        bytes (st_mem st') dest (Z.to_nat len) = bytes m src1 (Z.to_nat len))
    /\ (c = MBEDTLS_CT_FALSE -> src2 <> NULL -> can_copy src2 dest len ->
        bytes (st_mem st') dest (Z.to_nat len) = bytes m src2 (Z.to_nat len))
    /\ (c = MBEDTLS_CT_FALSE -> src2 = NULL ->
        bytes (st_mem st') dest (Z.to_nat len) = bytes m dest (Z.to_nat len)
        /\ mem_eq (st_mem st') m)
    /\ (len = 0 -> forall a, st_mem st' a = m a).
Proof.
  intros Hlen Hc Hfuel.
  destruct (memcpy_if_spec cfg c dest src1 src2 len Hlen fuel (mkState m [])
                           Hfuel) as (st' & Hrun & Hf & _ & Hcp).
  cbn [st_mem] in Hf, Hcp.
  unfold memcpy_if_pre, memcpy_if_source, memcpy_if_src2 in Hcp.
  exists st'. split; [exact Hrun|]. split; [|split; [|split]].
  - intros -> Hcan. apply bytes_copied; [apply Hlen|].
    apply Hcp. split; assumption.
  - intros -> Hnn Hcan. apply bytes_copied; [apply Hlen|].
    destruct (Z.eqb_spec src2 NULL) as [E | _]; [contradiction|].
    apply Hcp. split; assumption.
  - intros -> ->. change (NULL =? NULL) with true in Hcp.
    assert (Hd : copied dest dest len m (st_mem st')).
    { apply Hcp. split; [assumption | left; apply Z.le_refl]. }
    split; [apply bytes_copied; [apply Hlen | exact Hd]|].
    exact (copied_self _ _ _ _ Hd).
  - intros -> a. apply Hf. lia.
Qed.

Lemma memcpy_if_selects_witness :
  object_size 6 /\ is_condition MBEDTLS_CT_TRUE /\ (Z.to_nat 6 < 8)%nat
  /\ exists st',
      run (mbedtls_ct_memcpy_if aarch64 MBEDTLS_CT_TRUE 100 200 300 6) 8
          (mem_of 200 [1; 2; 3; 4; 5; 6]) = Some (tt, st')
      /\ bytes (st_mem st') 100 (Z.to_nat 6)
         = bytes (mem_of 200 [1; 2; 3; 4; 5; 6]) 200 (Z.to_nat 6).
Proof.
  assert (H6 : object_size 6) by (unfold object_size, PTRDIFF_MAX; lia).
  assert (Hc : is_condition MBEDTLS_CT_TRUE) by (left; reflexivity).
  assert (Hf : (Z.to_nat 6 < 8)%nat) by (simpl; lia).
  split; [exact H6|]. split; [exact Hc|]. split; [exact Hf|].
  destruct (memcpy_if_selects aarch64 MBEDTLS_CT_TRUE 100 200 300 6
                              (mem_of 200 [1; 2; 3; 4; 5; 6]) 8 H6 Hc Hf)
    as (st' & Hrun & Htrue & _).
  exists st'. split; [exact Hrun|].
  apply Htrue; [reflexivity | left; lia].
Defined.

(** C4.  For an offset with [offset_min <= offset <= offset_max],
    [mbedtls_ct_memcpy_offset] returns and leaves in the first [len] bytes of
    [dest] the bytes [src[offset .. offset+len)].  The source buffer holds
    [offset_max + len] bytes, and the bytes to copy are not overwritten by
    the copy before it reads them. *)
Theorem memcpy_offset_copies (cfg : config)
        (dest src offset offset_min offset_max len : Z) (m : mem)
        (fuel : nat) :
  object_size len -> is_size_t offset_min ->
  object_size (offset_max + len) ->
  can_copy (src + offset) dest len ->
  (Z.to_nat len < fuel)%nat ->
  (candidates offset_min offset_max < fuel)%nat ->
  offset_min <= offset <= offset_max ->
  exists st',
    run (mbedtls_ct_memcpy_offset cfg dest src offset offset_min offset_max
                                  len) fuel m = Some (tt, st')
    /\ bytes (st_mem st') dest (Z.to_nat len)
       = bytes m (src + offset) (Z.to_nat len).
Proof.
  intros Hlen Hmin Hsrc Hcan Hfuel Hcand Hin.
  assert (Hmax : offset_max < SIZE_MAX)
    by (unfold object_size, PTRDIFF_MAX, SIZE_MAX in *; lia).
  destruct (memcpy_offset_spec cfg dest src offset offset_min offset_max len
              Hlen Hmin Hmax fuel (mkState m []) Hfuel Hcand)
    as (st' & Hrun & _ & _ & _ & Hcp).
  exists st'. split; [exact Hrun|].
  apply bytes_copied; [apply Hlen|]. now apply Hcp.
Qed.

Lemma memcpy_offset_copies_witness :
  object_size 5 /\ is_size_t 1 /\ object_size (4 + 5)
  /\ can_copy (200 + 3) 100 5 /\ (Z.to_nat 5 < 8)%nat
  /\ (candidates 1 4 < 8)%nat /\ 1 <= 3 <= 4
  /\ exists st',
      run (mbedtls_ct_memcpy_offset big_endian_fast 100 200 3 1 4 5) 8
          (mem_of 200 [1; 2; 3; 4; 5; 6; 7; 8; 9]) = Some (tt, st')
      /\ bytes (st_mem st') 100 (Z.to_nat 5)
         = bytes (mem_of 200 [1; 2; 3; 4; 5; 6; 7; 8; 9]) (200 + 3)
                 (Z.to_nat 5).
Proof.
  assert (H5 : object_size 5) by (unfold object_size, PTRDIFF_MAX; lia).
  assert (H1 : is_size_t 1) by (unfold is_size_t, SIZE_MAX; lia).
  assert (H9 : object_size (4 + 5))
    by (unfold object_size, PTRDIFF_MAX; lia).
  assert (Hc : can_copy (200 + 3) 100 5) by (left; lia).
  assert (Hf : (Z.to_nat 5 < 8)%nat) by (simpl; lia).
  assert (Hk : (candidates 1 4 < 8)%nat) by (vm_compute; lia).
  assert (Hr : 1 <= 3 <= 4) by lia.
  repeat (split; [assumption|]).
  exact (memcpy_offset_copies big_endian_fast 100 200 3 1 4 5
           (mem_of 200 [1; 2; 3; 4; 5; 6; 7; 8; 9]) 8 H5 H1 H9 Hc Hf Hk Hr).
Defined.

(** C5.  [mbedtls_ct_zeroize_if] with a true condition returns and leaves
    every one of the first [len] bytes of [buf] zero; with a false condition
    it returns and leaves every byte of memory as it was. *)
Theorem zeroize_if_clears_or_keeps (cfg : config) (buf len : Z) (m : mem)
        (fuel : nat) :
  object_size len -> (Z.to_nat len < fuel)%nat ->
  (exists st',
      run (mbedtls_ct_zeroize_if cfg MBEDTLS_CT_TRUE buf len) fuel m
      = Some (tt, st')
      /\ bytes (st_mem st') buf (Z.to_nat len) = repeat 0 (Z.to_nat len))
  /\ (exists st',
         run (mbedtls_ct_zeroize_if cfg MBEDTLS_CT_FALSE buf len) fuel m
         = Some (tt, st')
         /\ bytes (st_mem st') buf (Z.to_nat len) = bytes m buf (Z.to_nat len)
         /\ mem_eq (st_mem st') m).
Proof.
  intros Hlen Hfuel. split.
  - destruct (zeroize_if_spec cfg MBEDTLS_CT_TRUE buf len Hlen fuel
                              (mkState m []) Hfuel)
      as (st' & Hrun & _ & _ & Hcl).
    exists st'. split; [exact Hrun|].
    eapply bytes_cleared; [apply Hlen|]. apply Hcl. left. reflexivity.
  - destruct (zeroize_if_spec cfg MBEDTLS_CT_FALSE buf len Hlen fuel
                              (mkState m []) Hfuel)
      as (st' & Hrun & _ & _ & Hcl).
    exists st'. split; [exact Hrun|].
    assert (E : mem_eq (st_mem st') m).
    { eapply mem_eq_cleared. apply Hcl. right. reflexivity. }
    split; [now apply bytes_mem_eq | exact E].
Qed.

Lemma zeroize_if_clears_or_keeps_witness :
  object_size 6 /\ (Z.to_nat 6 < 8)%nat
  /\ (exists st',
         run (mbedtls_ct_zeroize_if aarch64 MBEDTLS_CT_TRUE 100 6) 8
             (mem_of 100 [1; 2; 3; 4; 5; 6]) = Some (tt, st')
         /\ bytes (st_mem st') 100 (Z.to_nat 6) = repeat 0 (Z.to_nat 6))
  /\ (exists st',
         run (mbedtls_ct_zeroize_if aarch64 MBEDTLS_CT_FALSE 100 6) 8
             (mem_of 100 [1; 2; 3; 4; 5; 6]) = Some (tt, st')
         /\ bytes (st_mem st') 100 (Z.to_nat 6)
            = bytes (mem_of 100 [1; 2; 3; 4; 5; 6]) 100 (Z.to_nat 6)
         /\ mem_eq (st_mem st') (mem_of 100 [1; 2; 3; 4; 5; 6])).
Proof.
  assert (H6 : object_size 6) by (unfold object_size, PTRDIFF_MAX; lia).
  assert (Hf : (Z.to_nat 6 < 8)%nat) by (simpl; lia).
  split; [exact H6|]. split; [exact Hf|].
  exact (zeroize_if_clears_or_keeps aarch64 100 6
           (mem_of 100 [1; 2; 3; 4; 5; 6]) 8 H6 Hf).
Defined.

(** C6.  For [offset_min <= offset_max] and an offset outside
    [[offset_min, offset_max]], [mbedtls_ct_memcpy_offset] returns and leaves
    [dest], and every other byte of memory, as it was: no candidate matches,
    so that each conditional copy selects [dest] itself. *)
Theorem memcpy_offset_out_of_range (cfg : config)
        (dest src offset offset_min offset_max len : Z) (m : mem)
        (fuel : nat) :
  object_size len -> is_size_t offset_min ->
  object_size (offset_max + len) ->
  (Z.to_nat len < fuel)%nat ->
  (candidates offset_min offset_max < fuel)%nat ->
  offset_min <= offset_max ->
  ~ (offset_min <= offset <= offset_max) ->
  exists st',
    run (mbedtls_ct_memcpy_offset cfg dest src offset offset_min offset_max
                                  len) fuel m = Some (tt, st')
    /\ bytes (st_mem st') dest (Z.to_nat len) = bytes m dest (Z.to_nat len)
    /\ mem_eq (st_mem st') m
    /\ (forall v, offset_min <= v <= offset_max ->
          memcpy_if_source (mbedtls_ct_uint_eq v offset) dest (src + v) NULL
          = dest).
Proof.
  intros Hlen Hmin Hsrc Hfuel Hcand Hle Hout.
  assert (Hmax : offset_max < SIZE_MAX)
    by (unfold object_size, PTRDIFF_MAX, SIZE_MAX in *; lia).
  destruct (memcpy_offset_spec cfg dest src offset offset_min offset_max len
              Hlen Hmin Hmax fuel (mkState m []) Hfuel Hcand)
    as (st' & Hrun & _ & _ & Hne & _).
  specialize (Hne Hout). cbn [st_mem] in Hne.
  exists st'. split; [exact Hrun|].
  split; [now apply bytes_mem_eq|]. split; [exact Hne|].
  intros v Hv. unfold memcpy_if_source, memcpy_if_src2, mbedtls_ct_uint_eq.
  rewrite chosen_bool.
  destruct (Z.eqb_spec v offset) as [-> | _]; [contradiction | reflexivity].
Qed.

Lemma memcpy_offset_out_of_range_witness :
  object_size 5 /\ is_size_t 1 /\ object_size (4 + 5)
  /\ (Z.to_nat 5 < 8)%nat /\ (candidates 1 4 < 8)%nat /\ 1 <= 4
  /\ ~ (1 <= 7 <= 4)
  /\ exists st',
      run (mbedtls_ct_memcpy_offset aarch64 100 200 7 1 4 5) 8
          (mem_of 100 [1; 2; 3; 4; 5; 6; 7; 8; 9]) = Some (tt, st')
      /\ bytes (st_mem st') 100 (Z.to_nat 5)
         = bytes (mem_of 100 [1; 2; 3; 4; 5; 6; 7; 8; 9]) 100 (Z.to_nat 5).
Proof.
  assert (H5 : object_size 5) by (unfold object_size, PTRDIFF_MAX; lia).
  assert (H1 : is_size_t 1) by (unfold is_size_t, SIZE_MAX; lia).
  assert (H9 : object_size (4 + 5))
    by (unfold object_size, PTRDIFF_MAX; lia).
  assert (Hf : (Z.to_nat 5 < 8)%nat) by (simpl; lia).
  assert (Hk : (candidates 1 4 < 8)%nat) by (vm_compute; lia).
  assert (Hr : 1 <= 4) by lia.
  assert (Ho : ~ (1 <= 7 <= 4)) by lia.
  repeat (split; [assumption|]).
  destruct (memcpy_offset_out_of_range aarch64 100 200 7 1 4 5
              (mem_of 100 [1; 2; 3; 4; 5; 6; 7; 8; 9]) 8
              H5 H1 H9 Hf Hk Hr Ho) as (st' & Hrun & Hb & _).
  exists st'. split; [exact Hrun | exact Hb].
Defined.

(** C7.  Two successive calls of [mbedtls_ct_memcmp] on a buffer and itself
    both return zero; and [mbedtls_ct_zeroize_if] with a true condition run
    twice leaves the same memory as when run once, the buffer being
    all-zero. *)
Theorem repeated_calls_idempotent (cfg : config) (a n buf len : Z) (m : mem)
        (fuel : nat) :
  object_size n -> object_size len ->
  (Z.to_nat n < fuel)%nat -> (Z.to_nat len < fuel)%nat ->
  (exists st',
      run (r1 <- mbedtls_ct_memcmp cfg a a n ;;
           r2 <- mbedtls_ct_memcmp cfg a a n ;;
           ret (r1, r2)) fuel m = Some ((0, 0), st'))
  /\ (exists st1 st2,
         run (mbedtls_ct_zeroize_if cfg MBEDTLS_CT_TRUE buf len) fuel m
         = Some (tt, st1)
         /\ run (mbedtls_ct_zeroize_if cfg MBEDTLS_CT_TRUE buf len ;;
                 mbedtls_ct_zeroize_if cfg MBEDTLS_CT_TRUE buf len) fuel m
            = Some (tt, st2)
         /\ mem_eq (st_mem st2) (st_mem st1)
         /\ bytes (st_mem st2) buf (Z.to_nat len) = repeat 0 (Z.to_nat len)
         /\ bytes (st_mem st1) buf (Z.to_nat len) = repeat 0 (Z.to_nat len)).
Proof.
  intros Hn Hlen Hfn Hfl. split.
  - destruct (memcmp_spec cfg a a n Hn fuel (mkState m []) Hfn)
      as (r1 & st1 & Hrun1 & _ & _ & Hr1).
    destruct (memcmp_spec cfg a a n Hn fuel st1 Hfn)
      as (r2 & st2 & Hrun2 & _ & _ & Hr2).
    assert (r1 = 0) as -> by (apply Hr1; intros j _; reflexivity).
    assert (r2 = 0) as -> by (apply Hr2; intros j _; reflexivity).
    exists st2. unfold run.
    rewrite (bind_Some _ _ _ _ _ _ Hrun1), (bind_Some _ _ _ _ _ _ Hrun2).
    reflexivity.
  - assert (Hc : is_condition MBEDTLS_CT_TRUE) by (left; reflexivity).
    destruct (zeroize_if_spec cfg MBEDTLS_CT_TRUE buf len Hlen fuel
                              (mkState m []) Hfl)
      as (st1 & Hrun1 & _ & _ & Hcl1).
    destruct (zeroize_if_spec cfg MBEDTLS_CT_TRUE buf len Hlen fuel st1 Hfl)
      as (st2 & Hrun2 & _ & _ & Hcl2).
    specialize (Hcl1 Hc). specialize (Hcl2 Hc). cbn [st_mem] in Hcl1.
    exists st1, st2. split; [exact Hrun1|]. split.
    + unfold run. rewrite (bind_Some _ _ _ _ _ _ Hrun1). exact Hrun2.
    + split; [|split; eapply bytes_cleared; (apply Hlen || eassumption)].
      intros p. rewrite (Hcl2 p), (Hcl1 p).
      unfold chosen. cbn [Z.eqb MBEDTLS_CT_TRUE MBEDTLS_CT_FALSE].
      destruct ((buf <=? p) && (p <? buf + len)); reflexivity.
Qed.

Lemma repeated_calls_idempotent_witness :
  object_size 6 /\ object_size 5
  /\ (Z.to_nat 6 < 8)%nat /\ (Z.to_nat 5 < 8)%nat
  /\ (exists st',
         run (r1 <- mbedtls_ct_memcmp aarch64 100 100 6 ;;
              r2 <- mbedtls_ct_memcmp aarch64 100 100 6 ;;
              ret (r1, r2)) 8 (mem_of 100 [1; 2; 3; 4; 5; 6])
         = Some ((0, 0), st'))
  /\ (exists st1 st2,
         run (mbedtls_ct_zeroize_if aarch64 MBEDTLS_CT_TRUE 101 5) 8
             (mem_of 100 [1; 2; 3; 4; 5; 6]) = Some (tt, st1)
         /\ run (mbedtls_ct_zeroize_if aarch64 MBEDTLS_CT_TRUE 101 5 ;;
                 mbedtls_ct_zeroize_if aarch64 MBEDTLS_CT_TRUE 101 5) 8
                (mem_of 100 [1; 2; 3; 4; 5; 6]) = Some (tt, st2)
         /\ mem_eq (st_mem st2) (st_mem st1)
         /\ bytes (st_mem st2) 101 (Z.to_nat 5) = repeat 0 (Z.to_nat 5)
         /\ bytes (st_mem st1) 101 (Z.to_nat 5) = repeat 0 (Z.to_nat 5)).
Proof.
  assert (H6 : object_size 6) by (unfold object_size, PTRDIFF_MAX; lia).
  assert (H5 : object_size 5) by (unfold object_size, PTRDIFF_MAX; lia).
  assert (Hf6 : (Z.to_nat 6 < 8)%nat) by (simpl; lia).
  assert (Hf5 : (Z.to_nat 5 < 8)%nat) by (simpl; lia).
  repeat (split; [assumption|]).
  exact (repeated_calls_idempotent aarch64 100 6 101 5
           (mem_of 100 [1; 2; 3; 4; 5; 6]) 8 H6 H5 Hf6 Hf5).
Defined.

(** C9.  With an empty candidate range, [offset_min > offset_max],
    [mbedtls_ct_memcpy_offset] returns after the one test that leaves the
    loop: no iteration is run, nothing is loaded or stored, and memory is
    what it was, whatever the offset and the length. *)
Theorem memcpy_offset_empty_range (cfg : config)
        (dest src offset offset_min offset_max len : Z) (st : state)
        (fuel : nat) :
  offset_max < offset_min -> (0 < fuel)%nat ->
  exists st',
    mbedtls_ct_memcpy_offset cfg dest src offset offset_min offset_max len
                             fuel st = Some (tt, st')
    /\ st_mem st' = st_mem st
    /\ st_trace st' = EvBranch false :: st_trace st
    /\ memcpy_offset_events cfg dest src offset_min offset_max len
       = [EvBranch false].
Proof.
  intros Hempty Hfuel. exists (log (EvBranch false) st).
  split; [|split; [reflexivity|split; [reflexivity|]]].
  - destruct fuel as [|fuel]; [lia|].
    unfold mbedtls_ct_memcpy_offset, bind, for_loop. cbn [iterate].
    unfold bind, branch, ret.
    destruct (Z.leb_spec offset_min offset_max); [lia | reflexivity].
  - unfold memcpy_offset_events, loop_exit, loop_events, candidates.
    replace (Z.to_nat (offset_max + 1 - offset_min)) with 0%nat by lia.
    reflexivity.
Qed.

Lemma memcpy_offset_empty_range_witness :
  4 < 5 /\ (0 < 1)%nat
  /\ exists st',
      mbedtls_ct_memcpy_offset portable 100 200 5 5 4 16 1%nat
        (mkState (mem_of 100 [1; 2; 3]) []) = Some (tt, st')
      /\ st_mem st' = mem_of 100 [1; 2; 3]
      /\ st_trace st' = [EvBranch false].
Proof.
  assert (He : 4 < 5) by lia.
  assert (Hf : (0 < 1)%nat) by lia.
  split; [exact He|]. split; [exact Hf|].
  destruct (memcpy_offset_empty_range portable 100 200 5 5 4 16
              (mkState (mem_of 100 [1; 2; 3]) []) 1%nat He Hf)
    as (st' & Hrun & Hm & Ht & _).
  exists st'. split; [exact Hrun|]. split; [exact Hm | exact Ht].
Defined.

(** C10.  Every writing operation writes inside its destination only:
    [mbedtls_ct_memcpy_if] and [mbedtls_ct_zeroize_if] leave every cell
    outside [dest[0..len)], resp. [buf[0..len)], as it was,
    [mbedtls_ct_memmove_left] leaves every cell outside [start[0..total)] as
    it was and no cell changes when [total = 0], and [mbedtls_ct_memcmp]
    leaves the memory as it was; so does [mbedtls_ct_memcpy_offset] outside
    [dest[0..len)].  This holds for every condition, offset and placement of
    the buffers. *)
Theorem writes_stay_in_destination (cfg : config)
        (c dest src1 src2 len buf start total offset a b n : Z)
        (src offset_min offset_max : Z) (st : state) (fuel : nat) :
  object_size len -> object_size total -> object_size n ->
  (Z.to_nat len < fuel)%nat -> (Z.to_nat total < fuel)%nat ->
  (Z.to_nat n < fuel)%nat ->
  (exists st',
      mbedtls_ct_memcpy_if cfg c dest src1 src2 len fuel st = Some (tt, st')
      /\ forall p, ~ (dest <= p < dest + len) -> st_mem st' p = st_mem st p)
  /\ (exists st',
         mbedtls_ct_zeroize_if cfg c buf len fuel st = Some (tt, st')
         /\ forall p, ~ (buf <= p < buf + len) -> st_mem st' p = st_mem st p)
  /\ (exists st',
         mbedtls_ct_memmove_left start total offset fuel st = Some (tt, st')
         /\ (forall p, ~ (start <= p < start + total) ->
                       st_mem st' p = st_mem st p)
         /\ (total = 0 -> forall p, st_mem st' p = st_mem st p))
  /\ (exists r st',
         mbedtls_ct_memcmp cfg a b n fuel st = Some (r, st')
         /\ st_mem st' = st_mem st)
  /\ (is_size_t offset_min -> object_size (offset_max + len) ->
      (candidates offset_min offset_max < fuel)%nat ->
      exists st',
        mbedtls_ct_memcpy_offset cfg dest src offset offset_min offset_max
                                 len fuel st = Some (tt, st')
        /\ forall p, ~ (dest <= p < dest + len) ->
                     st_mem st' p = st_mem st p).
Proof.
  intros Hlen Htotal Hn Hfl Hft Hfn. split; [|split; [|split; [|split]]].
  - destruct (memcpy_if_spec cfg c dest src1 src2 len Hlen fuel st Hfl)
      as (st' & Hrun & Hf & _).
    exists st'. split; [exact Hrun | exact Hf].
  - destruct (zeroize_if_spec cfg c buf len Hlen fuel st Hfl)
      as (st' & Hrun & Hf & _).
    exists st'. split; [exact Hrun | exact Hf].
  - destruct (memmove_left_spec start total offset Htotal fuel st Hft)
      as (st' & Hrun & Hf & _).
    exists st'. split; [exact Hrun|]. split; [exact Hf|].
    intros -> p. apply Hf. lia.
  - destruct (memcmp_spec cfg a b n Hn fuel st Hfn)
      as (r & st' & Hrun & Hm & _).
    exists r, st'. split; [exact Hrun | exact Hm].
  - intros Hmin Hsrc Hfc.
    assert (Hmax : offset_max < SIZE_MAX)
      by (unfold object_size, PTRDIFF_MAX, SIZE_MAX in *; lia).
    destruct (memcpy_offset_spec cfg dest src offset offset_min offset_max
                len Hlen Hmin Hmax fuel st Hfl Hfc)
      as (st' & Hrun & Hf & _).
    exists st'. split; [exact Hrun | exact Hf].
Qed.

Lemma writes_stay_in_destination_witness :
  object_size 6 /\ object_size 8 /\ object_size 5
  /\ (Z.to_nat 6 < 9)%nat /\ (Z.to_nat 8 < 9)%nat /\ (Z.to_nat 5 < 9)%nat
  /\ exists st',
      mbedtls_ct_memcpy_if aarch64 MBEDTLS_CT_TRUE 100 103 NULL 6 9%nat
        (mkState (mem_of 100 [1; 2; 3; 4; 5; 6; 7; 8; 9]) []) = Some (tt, st')
      /\ forall p, ~ (100 <= p < 100 + 6) ->
                   st_mem st' p = mem_of 100 [1; 2; 3; 4; 5; 6; 7; 8; 9] p.
Proof.
  assert (H6 : object_size 6) by (unfold object_size, PTRDIFF_MAX; lia).
  assert (H8 : object_size 8) by (unfold object_size, PTRDIFF_MAX; lia).
  assert (H5 : object_size 5) by (unfold object_size, PTRDIFF_MAX; lia).
  assert (Hf6 : (Z.to_nat 6 < 9)%nat) by (simpl; lia).
  assert (Hf8 : (Z.to_nat 8 < 9)%nat) by (simpl; lia).
  assert (Hf5 : (Z.to_nat 5 < 9)%nat) by (simpl; lia).
  repeat (split; [assumption|]).
  exact (proj1 (writes_stay_in_destination aarch64 MBEDTLS_CT_TRUE
                  100 103 NULL 6 100 100 8 3 100 200 5 200 1 4
                  (mkState (mem_of 100 [1; 2; 3; 4; 5; 6; 7; 8; 9]) [])
                  9 H6 H8 H5 Hf6 Hf8 Hf5)).
Defined.

(** ** Leakage *)

Lemma leakage_emitted {A} (c : M A) fuel m (r : A) st' evs :
  run c fuel m = Some (r, st') -> emitted [] evs st' ->
  leakage c fuel m = Some evs.
Proof.
  unfold leakage, emitted. intros -> ->.
  now rewrite app_nil_r, rev_involutive.
Qed.

Lemma loop_events_flat_map body i0 k :
  loop_events body i0 1 k
  = flat_map (fun v => EvBranch true :: body v)
             (map (fun j => i0 + Z.of_nat j) (seq 0 k)).
Proof.
  unfold loop_events. rewrite !flat_map_concat_map, map_map.
  f_equal. apply map_ext. intros j. now rewrite Z.mul_1_l.
Qed.

Lemma count_occ_range lo k v :
  count_occ Z.eq_dec (map (fun j => lo + Z.of_nat j) (seq 0 k)) v
  = if (lo <=? v) && (v <? lo + Z.of_nat k) then 1%nat else 0%nat.
Proof.
  induction k as [|k IH].
  - cbn. zbool; lia || reflexivity.
  - rewrite seq_S, map_app, count_occ_app, IH. cbn [map count_occ Nat.add].
    destruct (Z.eq_dec (lo + Z.of_nat k) v); zbool; lia || reflexivity.
Qed.

(** C8.  What an operation lets an observer see (the sequence of its
    branch decisions, which fixes the instructions run and with them the
    time in this model, and the addresses and widths of its loads and
    stores) is a function of the addresses and declared sizes it is given:
    it is the same for every content of memory, every condition and every
    offset.  In particular the trace of [mbedtls_ct_memcpy_offset] is one
    conditional-copy pass reading from [src + v] for each candidate [v] of
    [[offset_min, offset_max]] in ascending order, each candidate exactly
    once, whichever offset is the real one. *)
Theorem leakage_is_data_independent (cfg : config)
        (a b n dest src1 src2 len buf start total src offset_min offset_max
           : Z) (fuel : nat) :
  object_size n -> object_size len -> object_size total ->
  is_size_t offset_min -> object_size (offset_max + len) ->
  (Z.to_nat n < fuel)%nat -> (Z.to_nat len < fuel)%nat ->
  (Z.to_nat total < fuel)%nat ->
  (candidates offset_min offset_max < fuel)%nat ->
  (forall m,
      leakage (mbedtls_ct_memcmp cfg a b n) fuel m
      = Some (memcmp_events cfg a b n))
  /\ (forall c m,
         leakage (mbedtls_ct_memcpy_if cfg c dest src1 src2 len) fuel m
         = Some (memcpy_if_events cfg dest src1 src2 len))
  /\ (forall c m,
         leakage (mbedtls_ct_zeroize_if cfg c buf len) fuel m
         = Some (zeroize_if_events cfg buf len))
  /\ (forall offset m,
         leakage (mbedtls_ct_memmove_left start total offset) fuel m
         = Some (memmove_left_events start total))
  /\ (forall offset m,
         leakage (mbedtls_ct_memcpy_offset cfg dest src offset offset_min
                                           offset_max len) fuel m
         = Some (memcpy_offset_events cfg dest src offset_min offset_max len))
  /\ memcpy_offset_events cfg dest src offset_min offset_max len
     = flat_map (fun v => EvBranch true
                          :: memcpy_if_events cfg dest (src + v) NULL len)
                (candidate_offsets offset_min offset_max)
       ++ [EvBranch false]
  /\ (forall v, offset_min <= v <= offset_max ->
                count_occ Z.eq_dec (candidate_offsets offset_min offset_max) v
                = 1%nat)
  /\ (forall v, In v (candidate_offsets offset_min offset_max) ->
                offset_min <= v <= offset_max).
Proof.
  intros Hn Hlen Htotal Hmin Hsrc Hfn Hfl Hft Hfc.
  assert (Hmax : offset_max < SIZE_MAX)
    by (unfold object_size, PTRDIFF_MAX, SIZE_MAX in *; lia).
  split; [|split; [|split; [|split; [|split; [|split; [|split]]]]]].
  - intros m.
    destruct (memcmp_spec cfg a b n Hn fuel (mkState m []) Hfn)
      as (r & st' & Hrun & _ & Ht & _).
    exact (leakage_emitted _ _ _ _ _ _ Hrun Ht).
  - intros c m.
    destruct (memcpy_if_spec cfg c dest src1 src2 len Hlen fuel
                             (mkState m []) Hfl) as (st' & Hrun & _ & Ht & _).
    exact (leakage_emitted _ _ _ _ _ _ Hrun Ht).
  - intros c m.
    destruct (zeroize_if_spec cfg c buf len Hlen fuel (mkState m []) Hfl)
      as (st' & Hrun & _ & Ht & _).
    exact (leakage_emitted _ _ _ _ _ _ Hrun Ht).
  - intros offset m.
    destruct (memmove_left_spec start total offset Htotal fuel (mkState m [])
                                Hft) as (st' & Hrun & _ & Ht & _).
    exact (leakage_emitted _ _ _ _ _ _ Hrun Ht).
  - intros offset m.
    destruct (memcpy_offset_spec cfg dest src offset offset_min offset_max
                len Hlen Hmin Hmax fuel (mkState m []) Hfl Hfc)
      as (st' & Hrun & _ & Ht & _).
    exact (leakage_emitted _ _ _ _ _ _ Hrun Ht).
  - unfold memcpy_offset_events, loop_exit, candidate_offsets.
    now rewrite loop_events_flat_map.
  - intros v Hv. unfold candidate_offsets. rewrite count_occ_range.
    unfold candidates. zbool; lia || reflexivity.
  - intros v Hv. unfold candidate_offsets, candidates in Hv.
    apply in_map_iff in Hv. destruct Hv as (j & <- & Hj).
    apply in_seq in Hj. lia.
Qed.

Lemma leakage_is_data_independent_witness :
  object_size 5 /\ object_size 6 /\ object_size 8
  /\ is_size_t 1 /\ object_size (4 + 6)
  /\ (Z.to_nat 5 < 9)%nat /\ (Z.to_nat 6 < 9)%nat /\ (Z.to_nat 8 < 9)%nat
  /\ (candidates 1 4 < 9)%nat
  /\ forall offset m,
      leakage (mbedtls_ct_memcpy_offset aarch64 100 200 offset 1 4 6) 9 m
      = Some (memcpy_offset_events aarch64 100 200 1 4 6).
Proof.
  assert (H5 : object_size 5) by (unfold object_size, PTRDIFF_MAX; lia).
  assert (H6 : object_size 6) by (unfold object_size, PTRDIFF_MAX; lia).
  assert (H8 : object_size 8) by (unfold object_size, PTRDIFF_MAX; lia).
  assert (H1 : is_size_t 1) by (unfold is_size_t, SIZE_MAX; lia).
  assert (H10 : object_size (4 + 6))
    by (unfold object_size, PTRDIFF_MAX; lia).
  assert (Hf5 : (Z.to_nat 5 < 9)%nat) by (simpl; lia).
  assert (Hf6 : (Z.to_nat 6 < 9)%nat) by (simpl; lia).
  assert (Hf8 : (Z.to_nat 8 < 9)%nat) by (simpl; lia).
  assert (Hk : (candidates 1 4 < 9)%nat) by (vm_compute; lia).
  repeat (split; [assumption|]).
  exact (proj1 (proj2 (proj2 (proj2 (proj2
           (leakage_is_data_independent aarch64 300 400 5 100 500 NULL 6
              600 700 8 200 1 4 9 H5 H6 H8 H1 H10 Hf5 Hf6 Hf8 Hk)))))).
Defined.


(** * Further properties of the code *)

(** ** Bits of machine words *)

Lemma mod_pow2_lor w x y :
  0 <= w -> Z.lor x y mod 2 ^ w = Z.lor (x mod 2 ^ w) (y mod 2 ^ w).
Proof.
  intros Hw. rewrite <- !Z.land_ones by assumption. apply Z.land_lor_distr_l.
Qed.

Lemma mod_pow2_lxor w x y :
  0 <= w -> Z.lxor x y mod 2 ^ w = Z.lxor (x mod 2 ^ w) (y mod 2 ^ w).
Proof.
  intros Hw. rewrite <- !Z.land_ones by assumption.
  apply Z.bits_inj'. intros k _.
  rewrite Z.lxor_spec, !Z.land_spec, Z.lxor_spec.
  destruct (Z.testbit x k), (Z.testbit y k), (Z.testbit (Z.ones w) k);
    reflexivity.
Qed.

Lemma lor_small w x y :
  0 <= w -> 0 <= x < 2 ^ w -> 0 <= y < 2 ^ w -> 0 <= Z.lor x y < 2 ^ w.
Proof.
  intros Hw Hx Hy. split; [apply Z.lor_nonneg; lia|].
  rewrite <- (Z.mod_small x (2 ^ w)), <- (Z.mod_small y (2 ^ w)) by assumption.
  rewrite <- mod_pow2_lor by assumption. apply Z.mod_pos_bound. lia.
Qed.

Lemma lxor_small w x y :
  0 <= w -> 0 <= x < 2 ^ w -> 0 <= y < 2 ^ w -> 0 <= Z.lxor x y < 2 ^ w.
Proof.
  intros Hw Hx Hy. split; [apply Z.lxor_nonneg; lia|].
  rewrite <- (Z.mod_small x (2 ^ w)), <- (Z.mod_small y (2 ^ w)) by assumption.
  rewrite <- mod_pow2_lxor by assumption. apply Z.mod_pos_bound. lia.
Qed.

Lemma testbit_uint32 x j :
  0 <= j < 32 -> Z.testbit (uint32_t x) j = Z.testbit x j.
Proof. intros Hj. unfold uint32_t. apply Z.mod_pow2_bits_low. lia. Qed.

(** The top bit of a 32-bit word tells its sign as an [int]. *)
Lemma testbit_31 x :
  0 <= x < 2 ^ 32 -> Z.testbit x 31 = true <-> 2 ^ 31 <= x.
Proof.
  intros Hx. rewrite Z.testbit_true by lia.
  change (2 ^ 31) with 2147483648 in *. change (2 ^ 32) with 4294967296 in *.
  Z.to_euclidean_division_equations. lia.
Qed.

Lemma testbit_7 x :
  0 <= x < 256 -> Z.testbit x 7 = true <-> 128 <= x.
Proof.
  intros Hx. rewrite Z.testbit_true by lia. change (2 ^ 7) with 128.
  Z.to_euclidean_division_equations. lia.
Qed.

Lemma testbit_word_msb cfg b0 b1 b2 b3 :
  0 <= b0 < 256 -> 0 <= b1 < 256 -> 0 <= b2 < 256 -> 0 <= b3 < 256 ->
  Z.testbit (word_of_bytes cfg b0 b1 b2 b3) 31
  = Z.testbit (if MBEDTLS_IS_BIG_ENDIAN cfg then b0 else b3) 7.
Proof.
  intros H0 H1 H2 H3.
  pose proof (word_of_bytes_range cfg b0 b1 b2 b3 H0 H1 H2 H3) as Hw.
  apply eq_true_iff_eq. rewrite testbit_31 by assumption.
  unfold word_of_bytes in *.
  destruct (MBEDTLS_IS_BIG_ENDIAN cfg); rewrite testbit_7 by assumption; lia.
Qed.

(** ** The value that mbedtls_ct_memcmp returns *)

Lemma or_diffs_ext f g stride i k d :
  (forall j, f j = g j) ->
  or_diffs f stride i k d = or_diffs g stride i k d.
Proof.
  intros E. revert i d. induction k as [|k IH]; intros i d; cbn [or_diffs];
    [reflexivity|]. rewrite E. apply IH.
Qed.

Lemma or_diffs_small w f stride i k d :
  0 <= w <= 32 -> 0 <= d < 2 ^ w -> (forall j, 0 <= f j < 2 ^ w) ->
  0 <= or_diffs f stride i k d < 2 ^ w.
Proof.
  intros Hw Hd Hf. revert i d Hd.
  induction k as [|k IH]; intros i d Hd; cbn [or_diffs]; [assumption|].
  apply IH. pose proof (lor_small w d (f i) (proj1 Hw) Hd (Hf i)) as Hl.
  assert (2 ^ w <= 2 ^ 32) by (apply Z.pow_le_mono_r; lia).
  rewrite uint32_small by lia. assumption.
Qed.

Lemma or_diffs_testbit f stride i k d j :
  0 <= j < 32 ->
  Z.testbit (or_diffs f stride i k d) j = true
  <-> Z.testbit d j = true
      \/ exists q, (q < k)%nat
                   /\ Z.testbit (f (i + stride * Z.of_nat q)) j = true.
Proof.
  intros Hj. revert i d.
  induction k as [|k IH]; intros i d; cbn [or_diffs].
  - split; [auto | intros [H | (q & Hq & _)]; [assumption | lia]].
  - rewrite IH, testbit_uint32, Z.lor_spec, orb_true_iff by assumption.
    split.
    + intros [[H | H] | (q & Hq & H)].
      * left. assumption.
      * right. exists 0%nat. split; [lia|].
        now rewrite Z.mul_0_r, Z.add_0_r.
      * right. exists (S q). split; [lia|].
        now replace (i + stride * Z.of_nat (S q))
          with (i + stride + stride * Z.of_nat q) by lia.
    + intros [H | (q & Hq & H)]; [left; left; assumption|].
      destruct q as [|q].
      * left. right. now rewrite Z.mul_0_r, Z.add_0_r in H.
      * right. exists q. split; [lia|].
        now replace (i + stride + stride * Z.of_nat q)
          with (i + stride * Z.of_nat (S q)) by lia.
Qed.

Section MemcmpValue.
Variables (cfg : config) (a b n : Z).
Hypothesis Hn : object_size n.

Lemma memcmp_byte_loop_value fuel st i0 d0 :
  0 <= i0 <= n -> (Z.to_nat n < fuel)%nat ->
  exists st',
    for_loop (fun '(i, _) => i <? n)
             (fun '(i, diff) =>
                x <- load8 (a + i) ;;
                y <- load8 (b + i) ;;
                let diff := uint32_t (Z.lor diff (Z.lxor x y)) in
                ret (size_t (i + 1), diff))
             (i0, d0) fuel st
    = Some ((n, or_diffs (memcmp_byte_diff (st_mem st) a b) 1 i0
                         (Z.to_nat (n - i0)) d0), st')
    /\ st_mem st' = st_mem st.
Proof.
  intros Hi0 Hfuel. unfold object_size, PTRDIFF_MAX in Hn.
  loop_rule
    (fun '((i, diff) : Z * Z) st' =>
       i0 <= i <= n /\ st_mem st' = st_mem st
       /\ or_diffs (memcmp_byte_diff (st_mem st) a b) 1 i
                   (Z.to_nat (n - i)) diff
          = or_diffs (memcmp_byte_diff (st_mem st) a b) 1 i0
                     (Z.to_nat (n - i0)) d0)
    (fun s : Z * Z => Z.to_nat (n - fst s)).
  - intros [i diff] st1 (Hi & Hm & Hv) Hc. apply Z.ltb_lt in Hc.
    eexists (_, _), _. split; [mrun; reflexivity|].
    cbn [st_mem log fst].
    rewrite size_t_small by (unfold SIZE_MAX; lia).
    split; [|lia]. split; [lia|]. split; [assumption|].
    rewrite <- Hv.
    replace (Z.to_nat (n - i)) with (S (Z.to_nat (n - (i + 1)))) by lia.
    cbn [or_diffs]. unfold memcmp_byte_diff at 3. now rewrite Hm.
  - split; [lia|]. split; reflexivity.
  - cbn [fst]. lia.
  - destruct Hloop as ([i diff] & st' & Hrun & (Hi & Hm & Hv) & Hc).
    apply Z.ltb_ge in Hc. assert (i = n) as -> by lia.
    rewrite Z.sub_diag in Hv. cbn [Z.to_nat or_diffs] in Hv. subst diff.
    exists (log (EvBranch false) st'). split; assumption.
Qed.

Lemma memcmp_word_loop_value fuel st :
  (Z.to_nat n < fuel)%nat ->
  exists st',
    for_loop (fun '(i, _) => size_t (i + 4) <=? n)
             (fun '(i, diff) =>
                x <- mbedtls_get_unaligned_volatile_uint32 cfg (a + i) ;;
                y <- mbedtls_get_unaligned_volatile_uint32 cfg (b + i) ;;
                let diff := uint32_t (Z.lor diff (Z.lxor x y)) in
                ret (size_t (i + 4), diff))
             (0, 0) fuel st
    = Some ((4 * (n / 4),
             or_diffs (memcmp_word_diff cfg (st_mem st) a b) 4 0
                      (Z.to_nat (n / 4)) 0), st')
    /\ st_mem st' = st_mem st.
Proof.
  intros Hfuel. unfold object_size, PTRDIFF_MAX in Hn.
  loop_rule
    (fun '((i, diff) : Z * Z) st' =>
       (0 <= i <= n /\ i mod 4 = 0) /\ st_mem st' = st_mem st
       /\ or_diffs (memcmp_word_diff cfg (st_mem st) a b) 4 i
                   (Z.to_nat ((n - i) / 4)) diff
          = or_diffs (memcmp_word_diff cfg (st_mem st) a b) 4 0
                     (Z.to_nat (n / 4)) 0)
    (fun s : Z * Z => Z.to_nat (n - fst s)).
  - intros [i diff] st1 (Hi & Hm & Hv) Hc.
    rewrite size_t_small in Hc by (unfold SIZE_MAX; lia).
    apply Z.leb_le in Hc.
    eexists (_, _), _. split; [mrun; reflexivity|].
    cbn [st_mem log fst].
    rewrite size_t_small by (unfold SIZE_MAX; lia).
    split; [|lia].
    split; [split; [lia | Z.to_euclidean_division_equations; lia]|].
    split; [assumption|].
    rewrite <- Hv.
    replace (Z.to_nat ((n - i) / 4))
      with (S (Z.to_nat ((n - (i + 4)) / 4)))
      by (Z.to_euclidean_division_equations; lia).
    cbn [or_diffs]. unfold memcmp_word_diff at 3. now rewrite Hm.
  - split; [split; [lia | reflexivity]|]. split; [reflexivity|].
    now rewrite Z.sub_0_r.
  - cbn [fst]. lia.
  - destruct Hloop as ([i diff] & st' & Hrun & (Hi & Hm & Hv) & Hc).
    rewrite size_t_small in Hc by (unfold SIZE_MAX; lia).
    apply Z.leb_gt in Hc.
    assert (i = 4 * (n / 4)) as Ei
        by (Z.to_euclidean_division_equations; lia).
    replace (Z.to_nat ((n - i) / 4)) with 0%nat in Hv
      by (Z.to_euclidean_division_equations; lia).
    cbn [or_diffs] in Hv. subst diff. rewrite <- Ei.
    exists (log (EvBranch false) st'). split; assumption.
Qed.

(** [mbedtls_ct_memcmp] returns [(int) diff]. *)
Lemma memcmp_returns_diff fuel st :
  (Z.to_nat n < fuel)%nat ->
  exists st',
    mbedtls_ct_memcmp cfg a b n fuel st
    = Some (int_of_uint32 (memcmp_diff cfg (st_mem st) a b n), st').
Proof.
  intros Hfuel. unfold mbedtls_ct_memcmp, memcmp_diff.
  pose proof Hn as Hn'. unfold object_size, PTRDIFF_MAX in Hn'.
  destruct (MBEDTLS_EFFICIENT_UNALIGNED_VOLATILE_ACCESS cfg).
  - destruct (memcmp_word_loop_value fuel st Hfuel) as (st1 & Hrun1 & Hm1).
    rewrite (bind_Some _ _ _ _ _ _ Hrun1).
    destruct (memcmp_byte_loop_value fuel st1 (4 * (n / 4))
                (or_diffs (memcmp_word_diff cfg (st_mem st) a b) 4 0
                          (Z.to_nat (n / 4)) 0))
      as (st2 & Hrun2 & Hm2);
      [Z.to_euclidean_division_equations; lia | assumption |].
    rewrite (bind_Some _ _ _ _ _ _ Hrun2). rewrite Hm1.
    exists st2. reflexivity.
  - rewrite (bind_Some _ _ _ _ (0, 0) st eq_refl).
    destruct (memcmp_byte_loop_value fuel st 0 0)
      as (st2 & Hrun2 & Hm2); [lia | assumption |].
    rewrite (bind_Some _ _ _ _ _ _ Hrun2). rewrite Z.sub_0_r.
    exists st2. reflexivity.
Qed.
End MemcmpValue.

Lemma memcmp_byte_diff_range m a b i : 0 <= memcmp_byte_diff m a b i < 2 ^ 8.
Proof. apply lxor_small; [lia | apply byte_at_range ..]. Qed.

Lemma memcmp_word_diff_range cfg m a b i :
  0 <= memcmp_word_diff cfg m a b i < 2 ^ 32.
Proof.
  apply lxor_small; [lia | apply word_of_bytes_range; apply byte_at_range ..].
Qed.

Lemma memcmp_diff_range cfg m a b n : 0 <= memcmp_diff cfg m a b n < 2 ^ 32.
Proof.
  unfold memcmp_diff.
  destruct (MBEDTLS_EFFICIENT_UNALIGNED_VOLATILE_ACCESS cfg).
  - apply (or_diffs_small 32); [lia | |].
    + apply (or_diffs_small 32); [lia | lia |].
      intros j. apply memcmp_word_diff_range.
    + intros j. pose proof (memcmp_byte_diff_range m a b j). lia.
  - apply (or_diffs_small 32); [lia | lia |].
    intros j. pose proof (memcmp_byte_diff_range m a b j). lia.
Qed.

Lemma xorb_true_neq x y : xorb x y = true <-> x <> y.
Proof. destruct x, y; cbn; split; congruence. Qed.

Lemma memcmp_diff_sym cfg m a b n :
  memcmp_diff cfg m a b n = memcmp_diff cfg m b a n.
Proof.
  unfold memcmp_diff.
  rewrite (or_diffs_ext (memcmp_word_diff cfg m a b)
                        (memcmp_word_diff cfg m b a))
    by (intros j; apply Z.lxor_comm).
  destruct (MBEDTLS_EFFICIENT_UNALIGNED_VOLATILE_ACCESS cfg);
    apply or_diffs_ext; intros j; apply Z.lxor_comm.
Qed.

(** X1.  [mbedtls_ct_memcmp] returns the same value when its two buffers are
    exchanged: unlike [memcmp], the sign of its result orders nothing. *)
Theorem memcmp_symmetric (cfg : config) (a b n : Z) (m : mem) (fuel : nat) :
  object_size n -> (Z.to_nat n < fuel)%nat ->
  exists r st1 st2,
    run (mbedtls_ct_memcmp cfg a b n) fuel m = Some (r, st1)
    /\ run (mbedtls_ct_memcmp cfg b a n) fuel m = Some (r, st2).
Proof.
  intros Hn Hfuel.
  destruct (memcmp_returns_diff cfg a b n Hn fuel (mkState m []) Hfuel)
    as (st1 & Hrun1).
  destruct (memcmp_returns_diff cfg b a n Hn fuel (mkState m []) Hfuel)
    as (st2 & Hrun2).
  cbn [st_mem] in Hrun1, Hrun2. rewrite (memcmp_diff_sym cfg m b a) in Hrun2.
  eexists _, st1, st2. split; [exact Hrun1 | exact Hrun2].
Qed.

Lemma memcmp_symmetric_witness :
  object_size 6 /\ (Z.to_nat 6 < 8)%nat
  /\ exists r st1 st2,
      run (mbedtls_ct_memcmp aarch64 100 103 6) 8
          (mem_of 100 [1; 2; 3; 4; 5; 6; 7; 8; 9]) = Some (r, st1)
      /\ run (mbedtls_ct_memcmp aarch64 103 100 6) 8
             (mem_of 100 [1; 2; 3; 4; 5; 6; 7; 8; 9]) = Some (r, st2).
Proof.
  assert (H6 : object_size 6) by (unfold object_size, PTRDIFF_MAX; lia).
  assert (Hf : (Z.to_nat 6 < 8)%nat) by (simpl; lia).
  split; [exact H6|]. split; [exact Hf|].
  exact (memcmp_symmetric aarch64 100 103 6
           (mem_of 100 [1; 2; 3; 4; 5; 6; 7; 8; 9]) 8 H6 Hf).
Defined.

(** X2.  In a build without the word-wide loop, [mbedtls_ct_memcmp] returns a
    value between 0 and 255 whose bit [j] is set exactly when the two
    buffers differ in bit [j] of some byte. *)
Theorem memcmp_portable_value (cfg : config) (a b n : Z) (m : mem)
        (fuel : nat) :
  MBEDTLS_EFFICIENT_UNALIGNED_VOLATILE_ACCESS cfg = false ->
  object_size n -> (Z.to_nat n < fuel)%nat ->
  exists r st',
    run (mbedtls_ct_memcmp cfg a b n) fuel m = Some (r, st')
    /\ 0 <= r <= 255
    /\ forall j, 0 <= j < 8 ->
         (Z.testbit r j = true
          <-> exists i, 0 <= i < n
                        /\ Z.testbit (byte_at m (a + i)) j
                           <> Z.testbit (byte_at m (b + i)) j).
Proof.
  intros Hcfg Hn Hfuel.
  destruct (memcmp_returns_diff cfg a b n Hn fuel (mkState m []) Hfuel)
    as (st' & Hrun).
  cbn [st_mem] in Hrun. unfold memcmp_diff in Hrun. rewrite Hcfg in Hrun.
  set (d := or_diffs (memcmp_byte_diff m a b) 1 0 (Z.to_nat n) 0) in *.
  assert (Hd : 0 <= d < 2 ^ 8).
  { apply (or_diffs_small 8); [lia | lia |].
    intros j. apply memcmp_byte_diff_range. }
  assert (Hr : int_of_uint32 d = d).
  { unfold int_of_uint32. destruct (Z.ltb_spec d (2 ^ 31)); lia. }
  rewrite Hr in Hrun. exists d, st'. split; [exact Hrun|].
  split; [lia|]. intros j Hj. unfold d.
  rewrite or_diffs_testbit by lia. rewrite Z.testbit_0_l.
  split.
  - intros [H | (q & Hq & H)]; [discriminate|].
    exists (Z.of_nat q). split; [lia|].
    unfold memcmp_byte_diff in H. rewrite Z.lxor_spec in H.
    apply xorb_true_neq in H.
    now replace (0 + 1 * Z.of_nat q) with (Z.of_nat q) in H by lia.
  - intros (i & Hi & H). right. exists (Z.to_nat i). split; [lia|].
    unfold memcmp_byte_diff. rewrite Z.lxor_spec. apply xorb_true_neq.
    now replace (0 + 1 * Z.of_nat (Z.to_nat i)) with i by lia.
Qed.

Lemma memcmp_portable_value_witness :
  MBEDTLS_EFFICIENT_UNALIGNED_VOLATILE_ACCESS portable = false
  /\ object_size 3 /\ (Z.to_nat 3 < 4)%nat
  /\ exists r st',
      run (mbedtls_ct_memcmp portable 100 103 3) 4
          (mem_of 100 [1; 2; 3; 1; 2; 4]) = Some (r, st')
      /\ 0 <= r <= 255.
Proof.
  assert (Hc : MBEDTLS_EFFICIENT_UNALIGNED_VOLATILE_ACCESS portable = false)
    by reflexivity.
  assert (H3 : object_size 3) by (unfold object_size, PTRDIFF_MAX; lia).
  assert (Hf : (Z.to_nat 3 < 4)%nat) by (simpl; lia).
  split; [exact Hc|]. split; [exact H3|]. split; [exact Hf|].
  destruct (memcmp_portable_value portable 100 103 3
              (mem_of 100 [1; 2; 3; 1; 2; 4]) 4 Hc H3 Hf)
    as (r & st' & Hrun & Hr & _).
  exists r, st'. split; [exact Hrun | exact Hr].
Defined.

Lemma testbit_word_at_msb cfg m p :
  Z.testbit (word_at cfg m p) 31
  = Z.testbit (byte_at m (p + msb_offset cfg)) 7.
Proof.
  unfold word_at. rewrite testbit_word_msb by apply byte_at_range.
  unfold msb_offset. destruct (MBEDTLS_IS_BIG_ENDIAN cfg);
    [now rewrite Z.add_0_r | reflexivity].
Qed.

(** X3.  In a build with the word-wide loop, [mbedtls_ct_memcmp] returns a
    negative value exactly when, in one of the [n / 4] words it compares,
    the most significant bytes of the two buffers differ in their top bit:
    callers can test the result against zero only. *)
Theorem memcmp_word_sign (cfg : config) (a b n : Z) (m : mem) (fuel : nat) :
  MBEDTLS_EFFICIENT_UNALIGNED_VOLATILE_ACCESS cfg = true ->
  object_size n -> (Z.to_nat n < fuel)%nat ->
  exists r st',
    run (mbedtls_ct_memcmp cfg a b n) fuel m = Some (r, st')
    /\ (r < 0
        <-> exists w, 0 <= w < n / 4
                      /\ Z.testbit (byte_at m (a + 4 * w + msb_offset cfg)) 7
                         <> Z.testbit (byte_at m (b + 4 * w + msb_offset cfg))
                                      7).
Proof.
  intros Hcfg Hn Hfuel.
  destruct (memcmp_returns_diff cfg a b n Hn fuel (mkState m []) Hfuel)
    as (st' & Hrun).
  cbn [st_mem] in Hrun.
  pose proof (memcmp_diff_range cfg m a b n) as Hd.
  eexists _, st'. split; [exact Hrun|].
  transitivity (Z.testbit (memcmp_diff cfg m a b n) 31 = true).
  { rewrite testbit_31 by assumption. unfold int_of_uint32.
    destruct (Z.ltb_spec (memcmp_diff cfg m a b n) (2 ^ 31)); lia. }
  unfold memcmp_diff. rewrite Hcfg.
  rewrite !or_diffs_testbit by lia. rewrite Z.testbit_0_l.
  split.
  - intros [[H | (q & Hq & H)] | (q & Hq & H)]; [discriminate | |].
    + exists (Z.of_nat q). split; [lia|].
      unfold memcmp_word_diff in H.
      rewrite Z.lxor_spec, !testbit_word_at_msb in H.
      apply xorb_true_neq in H.
      now replace (a + (0 + 4 * Z.of_nat q)) with (a + 4 * Z.of_nat q) in H
        by lia;
        replace (b + (0 + 4 * Z.of_nat q)) with (b + 4 * Z.of_nat q) in H
        by lia.
    + exfalso.
      pose proof (memcmp_byte_diff_range m a b
                    (4 * (n / 4) + 1 * Z.of_nat q)) as Hb.
      apply testbit_31 in H; lia.
  - intros (w & Hw & H). left. right. exists (Z.to_nat w). split; [lia|].
    unfold memcmp_word_diff.
    rewrite Z.lxor_spec, !testbit_word_at_msb. apply xorb_true_neq.
    now replace (a + (0 + 4 * Z.of_nat (Z.to_nat w))) with (a + 4 * w)
      by lia;
      replace (b + (0 + 4 * Z.of_nat (Z.to_nat w))) with (b + 4 * w)
      by lia.
Qed.

Lemma memcmp_word_sign_witness :
  MBEDTLS_EFFICIENT_UNALIGNED_VOLATILE_ACCESS aarch64 = true
  /\ object_size 4 /\ (Z.to_nat 4 < 5)%nat
  /\ exists r st',
      run (mbedtls_ct_memcmp aarch64 100 104 4) 5
          (mem_of 100 [0; 0; 0; 128; 0; 0; 0; 0]) = Some (r, st')
      /\ r < 0.
Proof.
  assert (Hc : MBEDTLS_EFFICIENT_UNALIGNED_VOLATILE_ACCESS aarch64 = true)
    by reflexivity.
  assert (H4 : object_size 4) by (unfold object_size, PTRDIFF_MAX; lia).
  assert (Hf : (Z.to_nat 4 < 5)%nat) by (simpl; lia).
  split; [exact Hc|]. split; [exact H4|]. split; [exact Hf|].
  destruct (memcmp_word_sign aarch64 100 104 4
              (mem_of 100 [0; 0; 0; 128; 0; 0; 0; 0]) 5 Hc H4 Hf)
    as (r & st' & Hrun & Hr).
  exists r, st'. split; [exact Hrun|].
  apply Hr. exists 0. split; [vm_compute; split; [discriminate | reflexivity]|].
  vm_compute. discriminate.
Defined.

(** ** mbedtls_ct_memmove_left beyond its contract, and in sequence *)

Lemma one_pass_no_op start total m1 m2 :
  one_pass start total MBEDTLS_CT_TRUE m1 m2 -> mem_eq m2 m1.
Proof.
  intros H a. rewrite (H a).
  destruct ((start <=? a) && (a <? start + total)); reflexivity.
Qed.

Lemma size_t_negative x : - 2 ^ 64 <= x < 0 -> size_t x = x + 2 ^ 64.
Proof.
  intros Hx. unfold size_t. symmetry.
  change (2 ^ 64) with 18446744073709551616 in *.
  apply (Z.mod_unique x _ (-1)); [left|]; lia.
Qed.

Lemma shifted_compose start total o1 o2 m0 m1 m2 :
  0 <= o1 -> 0 <= o2 ->
  shifted start total o1 m0 m1 -> shifted start total o2 m1 m2 ->
  shifted start total (o1 + o2) m0 m2.
Proof.
  intros H1 H2 S1 S2 a. rewrite (S2 a), (S1 (a + o2)), (S1 a).
  zbool; try lia; try reflexivity; f_equal; lia.
Qed.

Lemma shifted_saturate start total s m0 m :
  total <= s -> shifted start total s m0 m -> shifted start total total m0 m.
Proof. intros Hs H a. rewrite (H a). zbool; lia || reflexivity. Qed.

Lemma shifted_unique start total s m0 m m' :
  shifted start total s m0 m -> shifted start total s m0 m' -> mem_eq m m'.
Proof. intros H H' a. now rewrite (H a), (H' a). Qed.

(** X4.  With an offset beyond the buffer, [total < offset], the difference
    [total - offset] wraps to a value above every pass number, every pass is
    a no-op, and [mbedtls_ct_memmove_left] returns with every byte of memory
    as it was: it neither moves nor clears the buffer. *)
Theorem memmove_left_offset_beyond_total (start total offset : Z) (m : mem)
        (fuel : nat) :
  object_size total -> total < offset <= SIZE_MAX ->
  (Z.to_nat total < fuel)%nat ->
  exists st',
    run (mbedtls_ct_memmove_left start total offset) fuel m = Some (tt, st')
    /\ mem_eq (st_mem st') m
    /\ bytes (st_mem st') start (Z.to_nat total)
       = bytes m start (Z.to_nat total).
Proof.
  intros Htotal Hoffset Hfuel.
  pose proof Htotal as Ht'. unfold object_size, PTRDIFF_MAX in Ht'.
  unfold SIZE_MAX in Hoffset.
  unfold run, mbedtls_ct_memmove_left. cbv zeta. unfold bind at 1.
  loop_rule
    (fun (i : Z) st' => 0 <= i <= total /\ mem_eq (st_mem st') m)
    (fun i : Z => Z.to_nat (total - i)).
  - intros i st1 (Hi & He) Hc. apply Z.ltb_lt in Hc.
    rewrite (size_t_negative (total - offset)) by lia.
    unfold mbedtls_ct_uint_gt.
    replace (i <? total - offset + 2 ^ 64) with true
      by (symmetry; apply Z.ltb_lt; lia).
    cbn [mbedtls_ct_bool].
    destruct (memmove_inner_loop start total Htotal fuel
                (log (EvBranch true) st1) MBEDTLS_CT_TRUE)
      as (st2 & Hrun & _ & _ & Hp);
      [left; reflexivity | lia | assumption |].
    rewrite (bind_Some _ _ _ _ _ _ Hrun).
    rewrite (size_t_small (total - 1)) by (unfold SIZE_MAX; lia).
    eexists _, _. split; [mrun; reflexivity|].
    cbn [st_mem log] in *.
    rewrite size_t_small by (unfold SIZE_MAX; lia).
    split; [|lia]. split; [lia|].
    eapply mem_eq_trans; [|exact He].
    eapply one_pass_no_op.
    apply passed_last; [left; reflexivity | lia | exact Hp].
  - split; [lia | apply mem_eq_refl].
  - lia.
  - destruct Hloop as (i & st' & Hrun & (Hi & He) & Hc).
    rewrite Hrun. unfold ret.
    exists (log (EvBranch false) st'). split; [reflexivity|].
    split; [exact He | now apply bytes_mem_eq].
Qed.

Lemma memmove_left_offset_beyond_total_witness :
  object_size 4 /\ 4 < 9 <= SIZE_MAX /\ (Z.to_nat 4 < 5)%nat
  /\ exists st',
      run (mbedtls_ct_memmove_left 100 4 9) 5 (mem_of 100 [1; 2; 3; 4])
      = Some (tt, st')
      /\ bytes (st_mem st') 100 (Z.to_nat 4)
         = bytes (mem_of 100 [1; 2; 3; 4]) 100 (Z.to_nat 4).
Proof.
  assert (H4 : object_size 4) by (unfold object_size, PTRDIFF_MAX; lia).
  assert (Ho : 4 < 9 <= SIZE_MAX) by (unfold SIZE_MAX; lia).
  assert (Hf : (Z.to_nat 4 < 5)%nat) by (simpl; lia).
  split; [exact H4|]. split; [exact Ho|]. split; [exact Hf|].
  destruct (memmove_left_offset_beyond_total 100 4 9
              (mem_of 100 [1; 2; 3; 4]) 5 H4 Ho Hf)
    as (st' & Hrun & _ & Hb).
  exists st'. split; [exact Hrun | exact Hb].
Defined.

(** X5.  Two calls of [mbedtls_ct_memmove_left] in sequence, by [o1] and then
    by [o2], leave the memory that one call by [o1 + o2] leaves, or by
    [total] when the sum exceeds it. *)
Theorem memmove_left_twice (start total o1 o2 : Z) (m : mem) (fuel : nat) :
  object_size total -> 0 <= o1 <= total -> 0 <= o2 <= total ->
  (Z.to_nat total < fuel)%nat ->
  exists st2 st3,
    run (mbedtls_ct_memmove_left start total o1 ;;
         mbedtls_ct_memmove_left start total o2) fuel m = Some (tt, st2)
    /\ run (mbedtls_ct_memmove_left start total (Z.min total (o1 + o2)))
           fuel m = Some (tt, st3)
    /\ mem_eq (st_mem st2) (st_mem st3).
Proof.
  intros Htotal H1 H2 Hfuel.
  destruct (memmove_left_spec start total o1 Htotal fuel (mkState m [])
                              Hfuel) as (st1 & Hrun1 & _ & _ & S1).
  destruct (memmove_left_spec start total o2 Htotal fuel st1 Hfuel)
    as (st2 & Hrun2 & _ & _ & S2).
  destruct (memmove_left_spec start total (Z.min total (o1 + o2)) Htotal
                              fuel (mkState m []) Hfuel)
    as (st3 & Hrun3 & _ & _ & S3).
  specialize (S1 H1). specialize (S2 H2).
  specialize (S3 ltac:(lia)). cbn [st_mem] in S1, S3.
  exists st2, st3. split; [|split; [exact Hrun3|]].
  - unfold run. rewrite (bind_Some _ _ _ _ _ _ Hrun1). exact Hrun2.
  - pose proof (shifted_compose _ _ _ _ _ _ _ (proj1 H1) (proj1 H2) S1 S2)
      as S12.
    destruct (Z.min_spec total (o1 + o2)) as [[Hlt E] | [Hle E]];
      rewrite E in S3.
    + apply (shifted_unique start total total m);
        [apply (shifted_saturate _ _ (o1 + o2)); [lia | exact S12]
        | exact S3].
    + exact (shifted_unique _ _ _ _ _ _ S12 S3).
Qed.

Lemma memmove_left_twice_witness :
  object_size 8 /\ 0 <= 2 <= 8 /\ 0 <= 3 <= 8 /\ (Z.to_nat 8 < 9)%nat
  /\ exists st2 st3,
      run (mbedtls_ct_memmove_left 100 8 2 ;;
           mbedtls_ct_memmove_left 100 8 3) 9
          (mem_of 100 [1; 2; 3; 4; 5; 6; 7; 8]) = Some (tt, st2)
      /\ run (mbedtls_ct_memmove_left 100 8 (Z.min 8 (2 + 3))) 9
             (mem_of 100 [1; 2; 3; 4; 5; 6; 7; 8]) = Some (tt, st3)
      /\ mem_eq (st_mem st2) (st_mem st3).
Proof.
  assert (H8 : object_size 8) by (unfold object_size, PTRDIFF_MAX; lia).
  assert (H2 : 0 <= 2 <= 8) by lia.
  assert (H3 : 0 <= 3 <= 8) by lia.
  assert (Hf : (Z.to_nat 8 < 9)%nat) by (simpl; lia).
  repeat (split; [assumption|]).
  exact (memmove_left_twice 100 8 2 3 (mem_of 100 [1; 2; 3; 4; 5; 6; 7; 8])
                            9 H8 H2 H3 Hf).
Defined.

(** ** Sizes at which a loop counter wraps *)

(** X6.  With [offset_max = SIZE_MAX] the test [offsetval <= offset_max] of
    [mbedtls_ct_memcpy_offset] holds for every value of the counter, which
    wraps to zero: the call does not return, whatever the other arguments
    and however long it runs. *)
Theorem memcpy_offset_never_returns_at_size_max (cfg : config)
        (dest src offset offset_min len : Z) (fuel : nat) (st : state) :
  is_size_t offset_min ->
  mbedtls_ct_memcpy_offset cfg dest src offset offset_min SIZE_MAX len
                           fuel st = None.
Proof. intros Hmin. now apply memcpy_offset_spins. Qed.

Lemma memcpy_offset_never_returns_at_size_max_witness :
  is_size_t 0
  /\ mbedtls_ct_memcpy_offset portable 100 200 0 0 SIZE_MAX 0 50%nat
       (mkState (mem_of 100 []) []) = None.
Proof.
  assert (H0 : is_size_t 0) by (unfold is_size_t, SIZE_MAX; lia).
  split; [exact H0|].
  exact (memcpy_offset_never_returns_at_size_max portable 100 200 0 0 0
           50%nat (mkState (mem_of 100 []) []) H0).
Defined.

Lemma word_counter_test i len :
  SIZE_MAX - 3 <= len -> word_counter i -> (size_t (i + 4) <=? len) = true.
Proof.
  unfold word_counter, size_t, SIZE_MAX. intros Hlen [Hi Hm].
  apply Z.leb_le. change (2 ^ 64) with 18446744073709551616 in *.
  Z.to_euclidean_division_equations. lia.
Qed.

Lemma word_counter_next i : word_counter i -> word_counter (size_t (i + 4)).
Proof.
  unfold word_counter, size_t. intros [Hi Hm].
  change (2 ^ 64) with 18446744073709551616 in *.
  Z.to_euclidean_division_equations. lia.
Qed.

Lemma word_counter_zero : word_counter 0.
Proof. split; [lia | reflexivity]. Qed.

(** X7.  In a build with a word-wide loop, a length within three of
    [SIZE_MAX] makes [i + 4] wrap before it exceeds the length, so that the
    loop test never fails: [mbedtls_ct_memcpy_if], [mbedtls_ct_zeroize_if]
    and [mbedtls_ct_memcmp] do not return. *)
Theorem word_loops_never_return_near_size_max (cfg : config)
        (c dest src1 src2 a b len : Z) (fuel : nat) (st : state) :
  SIZE_MAX - 3 <= len <= SIZE_MAX ->
  (MBEDTLS_EFFICIENT_UNALIGNED_ACCESS cfg = true ->
   mbedtls_ct_memcpy_if cfg c dest src1 src2 len fuel st = None
   /\ mbedtls_ct_zeroize_if cfg c dest len fuel st = None)
  /\ (MBEDTLS_EFFICIENT_UNALIGNED_VOLATILE_ACCESS cfg = true ->
      mbedtls_ct_memcmp cfg a b len fuel st = None).
Proof.
  intros [Hlen _]. split.
  - intros Hcfg. split.
    + unfold mbedtls_ct_memcpy_if. rewrite Hcfg. cbv zeta.
      rewrite (bind_Some _ _ _ _ (src2 =? NULL)
                         (log (EvBranch (src2 =? NULL)) st) eq_refl).
      unfold bind at 1, for_loop at 1.
      rewrite (iterate_spins word_counter);
        [reflexivity | | | apply word_counter_zero].
      * intros i Hi. now apply word_counter_test.
      * intros i st0 i' st' Hi Hb.
        unfold bind, mbedtls_get_unaligned_uint32,
          mbedtls_put_unaligned_uint32, ret in Hb.
        injection Hb as <- _. now apply word_counter_next.
    + unfold mbedtls_ct_zeroize_if. rewrite Hcfg. cbv zeta.
      unfold bind at 1, for_loop at 1.
      rewrite (iterate_spins word_counter);
        [reflexivity | | | apply word_counter_zero].
      * intros i Hi. now apply word_counter_test.
      * intros i st0 i' st' Hi Hb.
        unfold bind, mbedtls_get_unaligned_uint32,
          mbedtls_put_unaligned_uint32, ret in Hb.
        injection Hb as <- _. now apply word_counter_next.
  - intros Hcfg. unfold mbedtls_ct_memcmp. rewrite Hcfg. cbv zeta.
    unfold bind at 1, for_loop at 1.
    rewrite (iterate_spins (fun s : Z * Z => word_counter (fst s)));
      [reflexivity | | | apply word_counter_zero].
    + intros [i d] Hi. now apply word_counter_test.
    + intros [i d] st0 [i' d'] st' Hi Hb.
      unfold bind, mbedtls_get_unaligned_volatile_uint32, ret in Hb.
      injection Hb as <- _ _. now apply word_counter_next.
Qed.

Lemma word_loops_never_return_near_size_max_witness :
  SIZE_MAX - 3 <= SIZE_MAX <= SIZE_MAX
  /\ mbedtls_ct_zeroize_if aarch64 MBEDTLS_CT_TRUE 100 SIZE_MAX 50%nat
       (mkState (mem_of 100 []) []) = None.
Proof.
  assert (H : SIZE_MAX - 3 <= SIZE_MAX <= SIZE_MAX) by lia.
  split; [exact H|].
  exact (proj2 (proj1 (word_loops_never_return_near_size_max aarch64
                         MBEDTLS_CT_TRUE 100 200 300 400 500 SIZE_MAX 50%nat
                         (mkState (mem_of 100 []) []) H) eq_refl)).
Defined.

(** ** Build configurations, repeated calls and calls in sequence *)

Lemma copied_unique sel dest i m0 m m' :
  copied sel dest i m0 m -> copied sel dest i m0 m' -> mem_eq m m'.
Proof. intros H H' a. now rewrite (H a), (H' a). Qed.

Lemma cleared_unique c p i m0 m m' :
  cleared c p i m0 m -> cleared c p i m0 m' -> mem_eq m m'.
Proof. intros H H' a. now rewrite (H a), (H' a). Qed.

Lemma mem_eq_sym m m' : mem_eq m m' -> mem_eq m' m.
Proof. intros H a. symmetry. apply H. Qed.

(** The source is the destination, or the two buffers are apart. *)
Lemma copied_twice sel dest len m0 m1 m2 :
  sel = dest \/ sel + len <= dest \/ dest + len <= sel ->
  copied sel dest len m0 m1 -> copied sel dest len m1 m2 -> mem_eq m2 m1.
Proof.
  intros Hs H1 H2 a. rewrite (H2 a).
  destruct ((dest <=? a) && (a <? dest + len)) eqn:E; [|reflexivity].
  rewrite (H1 a), E, (H1 (sel + (a - dest))).
  zbool_in E; try discriminate.
  zbool; try lia; try reflexivity; f_equal; lia.
Qed.

Lemma copied_agree sel dest len m0 m1 :
  sel = dest \/ sel + len <= dest \/ dest + len <= sel ->
  copied sel dest len m0 m1 -> agree dest sel m1 0 len.
Proof.
  intros Hs H1 j Hj. rewrite (H1 (dest + j)), (H1 (sel + j)).
  zbool; try lia; try reflexivity; f_equal; lia.
Qed.

(** X8.  The word-wide loops change no result: under any two build
    configurations [mbedtls_ct_memcpy_if], [mbedtls_ct_zeroize_if] and
    [mbedtls_ct_memcpy_offset], called within their contract, leave the same
    bytes in memory, and [mbedtls_ct_memcmp] returns zero under one exactly
    when it does under the other. *)
Theorem build_configurations_agree (cfg1 cfg2 : config)
        (c dest src1 src2 len buf a b n src offset offset_min offset_max : Z)
        (m : mem) (fuel : nat) :
  object_size len -> object_size n -> is_size_t offset_min ->
  object_size (offset_max + len) -> is_condition c ->
  (Z.to_nat len < fuel)%nat -> (Z.to_nat n < fuel)%nat ->
  (candidates offset_min offset_max < fuel)%nat ->
  (can_copy (memcpy_if_source c dest src1 src2) dest len ->
   exists st1 st2,
     run (mbedtls_ct_memcpy_if cfg1 c dest src1 src2 len) fuel m
     = Some (tt, st1)
     /\ run (mbedtls_ct_memcpy_if cfg2 c dest src1 src2 len) fuel m
        = Some (tt, st2)
     /\ mem_eq (st_mem st1) (st_mem st2))
  /\ (exists st1 st2,
         run (mbedtls_ct_zeroize_if cfg1 c buf len) fuel m = Some (tt, st1)
         /\ run (mbedtls_ct_zeroize_if cfg2 c buf len) fuel m
            = Some (tt, st2)
         /\ mem_eq (st_mem st1) (st_mem st2))
  /\ ((in_range offset offset_min offset_max ->
       can_copy (src + offset) dest len) ->
      exists st1 st2,
        run (mbedtls_ct_memcpy_offset cfg1 dest src offset offset_min
                                      offset_max len) fuel m = Some (tt, st1)
        /\ run (mbedtls_ct_memcpy_offset cfg2 dest src offset offset_min
                                         offset_max len) fuel m
           = Some (tt, st2)
        /\ mem_eq (st_mem st1) (st_mem st2))
  /\ (exists r1 r2 st1 st2,
         run (mbedtls_ct_memcmp cfg1 a b n) fuel m = Some (r1, st1)
         /\ run (mbedtls_ct_memcmp cfg2 a b n) fuel m = Some (r2, st2)
         /\ (r1 = 0 <-> r2 = 0)).
Proof.
  intros Hlen Hn Hmin Hsrc Hc Hfl Hfn Hfc.
  assert (Hmax : offset_max < SIZE_MAX)
    by (unfold object_size, PTRDIFF_MAX, SIZE_MAX in *; lia).
  split; [|split; [|split]].
  - intros Hcan.
    destruct (memcpy_if_spec cfg1 c dest src1 src2 len Hlen fuel
                (mkState m []) Hfl) as (st1 & Hrun1 & _ & _ & Hcp1).
    destruct (memcpy_if_spec cfg2 c dest src1 src2 len Hlen fuel
                (mkState m []) Hfl) as (st2 & Hrun2 & _ & _ & Hcp2).
    exists st1, st2. split; [exact Hrun1|]. split; [exact Hrun2|].
    eapply copied_unique; [apply Hcp1 | apply Hcp2]; split; assumption.
  - destruct (zeroize_if_spec cfg1 c buf len Hlen fuel (mkState m []) Hfl)
      as (st1 & Hrun1 & _ & _ & Hcl1).
    destruct (zeroize_if_spec cfg2 c buf len Hlen fuel (mkState m []) Hfl)
      as (st2 & Hrun2 & _ & _ & Hcl2).
    exists st1, st2. split; [exact Hrun1|]. split; [exact Hrun2|].
    eapply cleared_unique; [apply Hcl1 | apply Hcl2]; assumption.
  - intros Hcan.
    destruct (memcpy_offset_spec cfg1 dest src offset offset_min offset_max
                len Hlen Hmin Hmax fuel (mkState m []) Hfl Hfc)
      as (st1 & Hrun1 & _ & _ & Hne1 & Hcp1).
    destruct (memcpy_offset_spec cfg2 dest src offset offset_min offset_max
                len Hlen Hmin Hmax fuel (mkState m []) Hfl Hfc)
      as (st2 & Hrun2 & _ & _ & Hne2 & Hcp2).
    exists st1, st2. split; [exact Hrun1|]. split; [exact Hrun2|].
    destruct (Z_le_dec offset_min offset) as [H1 | H1];
      [destruct (Z_le_dec offset offset_max) as [H2 | H2]|].
    + assert (Hin : in_range offset offset_min offset_max) by (split; lia).
      eapply copied_unique; [apply Hcp1 | apply Hcp2]; auto.
    + eapply mem_eq_trans; [apply Hne1 | apply mem_eq_sym, Hne2];
        unfold in_range; lia.
    + eapply mem_eq_trans; [apply Hne1 | apply mem_eq_sym, Hne2];
        unfold in_range; lia.
  - destruct (memcmp_spec cfg1 a b n Hn fuel (mkState m []) Hfn)
      as (r1 & st1 & Hrun1 & _ & _ & Hr1).
    destruct (memcmp_spec cfg2 a b n Hn fuel (mkState m []) Hfn)
      as (r2 & st2 & Hrun2 & _ & _ & Hr2).
    exists r1, r2, st1, st2. split; [exact Hrun1|]. split; [exact Hrun2|].
    rewrite Hr1, Hr2. reflexivity.
Qed.

Lemma build_configurations_agree_witness :
  object_size 6 /\ object_size 5 /\ is_size_t 1 /\ object_size (4 + 6)
  /\ is_condition MBEDTLS_CT_FALSE
  /\ (Z.to_nat 6 < 9)%nat /\ (Z.to_nat 5 < 9)%nat
  /\ (candidates 1 4 < 9)%nat
  /\ exists st1 st2,
      run (mbedtls_ct_zeroize_if portable MBEDTLS_CT_FALSE 100 6) 9
          (mem_of 100 [1; 2; 3; 4; 5; 6]) = Some (tt, st1)
      /\ run (mbedtls_ct_zeroize_if big_endian_fast MBEDTLS_CT_FALSE 100 6) 9
             (mem_of 100 [1; 2; 3; 4; 5; 6]) = Some (tt, st2)
      /\ mem_eq (st_mem st1) (st_mem st2).
Proof.
  assert (H6 : object_size 6) by (unfold object_size, PTRDIFF_MAX; lia).
  assert (H5 : object_size 5) by (unfold object_size, PTRDIFF_MAX; lia).
  assert (H1 : is_size_t 1) by (unfold is_size_t, SIZE_MAX; lia).
  assert (H10 : object_size (4 + 6))
    by (unfold object_size, PTRDIFF_MAX; lia).
  assert (Hc : is_condition MBEDTLS_CT_FALSE) by (right; reflexivity).
  assert (Hf6 : (Z.to_nat 6 < 9)%nat) by (simpl; lia).
  assert (Hf5 : (Z.to_nat 5 < 9)%nat) by (simpl; lia).
  assert (Hk : (candidates 1 4 < 9)%nat) by (vm_compute; lia).
  repeat (split; [assumption|]).
  exact (proj1 (proj2 (build_configurations_agree portable big_endian_fast
           MBEDTLS_CT_FALSE 200 300 NULL 6 100 400 500 5 600 2 1 4
           (mem_of 100 [1; 2; 3; 4; 5; 6]) 9 H6 H5 H1 H10 Hc Hf6 Hf5 Hk))).
Defined.

(** X9.  [mbedtls_ct_memcpy_if] is idempotent: when the selected source is
    the destination itself or a buffer apart from it, a second call with the
    same arguments leaves the bytes that the first call left. *)
Theorem memcpy_if_twice (cfg : config) (c dest src1 src2 len : Z) (m : mem)
        (fuel : nat) :
  object_size len -> is_condition c ->
  memcpy_if_source c dest src1 src2 = dest
  \/ memcpy_if_source c dest src1 src2 + len <= dest
  \/ dest + len <= memcpy_if_source c dest src1 src2 ->
  (Z.to_nat len < fuel)%nat ->
  exists st1 st2,
    run (mbedtls_ct_memcpy_if cfg c dest src1 src2 len) fuel m
    = Some (tt, st1)
    /\ run (mbedtls_ct_memcpy_if cfg c dest src1 src2 len ;;
            mbedtls_ct_memcpy_if cfg c dest src1 src2 len) fuel m
       = Some (tt, st2)
    /\ mem_eq (st_mem st2) (st_mem st1).
Proof.
  intros Hlen Hc Hsel Hfuel.
  assert (Hpre : memcpy_if_pre c dest src1 src2 len).
  { split; [assumption|]. unfold can_copy. lia. }
  destruct (memcpy_if_spec cfg c dest src1 src2 len Hlen fuel (mkState m [])
                           Hfuel) as (st1 & Hrun1 & _ & _ & Hcp1).
  destruct (memcpy_if_spec cfg c dest src1 src2 len Hlen fuel st1 Hfuel)
    as (st2 & Hrun2 & _ & _ & Hcp2).
  exists st1, st2. split; [exact Hrun1|]. split.
  - unfold run. rewrite (bind_Some _ _ _ _ _ _ Hrun1). exact Hrun2.
  - exact (copied_twice _ _ _ _ _ _ Hsel (Hcp1 Hpre) (Hcp2 Hpre)).
Qed.

Lemma memcpy_if_twice_witness :
  object_size 6 /\ is_condition MBEDTLS_CT_TRUE
  /\ (memcpy_if_source MBEDTLS_CT_TRUE 100 200 NULL = 100
      \/ memcpy_if_source MBEDTLS_CT_TRUE 100 200 NULL + 6 <= 100
      \/ 100 + 6 <= memcpy_if_source MBEDTLS_CT_TRUE 100 200 NULL)
  /\ (Z.to_nat 6 < 8)%nat
  /\ exists st1 st2,
      run (mbedtls_ct_memcpy_if aarch64 MBEDTLS_CT_TRUE 100 200 NULL 6) 8
          (mem_of 200 [1; 2; 3; 4; 5; 6]) = Some (tt, st1)
      /\ run (mbedtls_ct_memcpy_if aarch64 MBEDTLS_CT_TRUE 100 200 NULL 6 ;;
              mbedtls_ct_memcpy_if aarch64 MBEDTLS_CT_TRUE 100 200 NULL 6) 8
             (mem_of 200 [1; 2; 3; 4; 5; 6]) = Some (tt, st2)
      /\ mem_eq (st_mem st2) (st_mem st1).
Proof.
  assert (H6 : object_size 6) by (unfold object_size, PTRDIFF_MAX; lia).
  assert (Hc : is_condition MBEDTLS_CT_TRUE) by (left; reflexivity).
  assert (Hs : memcpy_if_source MBEDTLS_CT_TRUE 100 200 NULL = 100
               \/ memcpy_if_source MBEDTLS_CT_TRUE 100 200 NULL + 6 <= 100
               \/ 100 + 6 <= memcpy_if_source MBEDTLS_CT_TRUE 100 200 NULL)
    by (right; right; vm_compute; discriminate).
  assert (Hf : (Z.to_nat 6 < 8)%nat) by (simpl; lia).
  repeat (split; [assumption|]).
  exact (memcpy_if_twice aarch64 MBEDTLS_CT_TRUE 100 200 NULL 6
           (mem_of 200 [1; 2; 3; 4; 5; 6]) 8 H6 Hc Hs Hf).
Defined.

(** X10.  For an offset among the candidates, [mbedtls_ct_memcpy_offset]
    leaves the bytes in memory that the plain conditional copy
    [mbedtls_ct_memcpy_if] with a true condition leaves when it is given
    [src + offset]: walking all candidates changes the accesses, not the
    result. *)
Theorem memcpy_offset_is_copy_from_offset (cfg : config)
        (dest src offset offset_min offset_max len : Z) (m : mem)
        (fuel : nat) :
  object_size len -> is_size_t offset_min ->
  object_size (offset_max + len) ->
  can_copy (src + offset) dest len ->
  (Z.to_nat len < fuel)%nat ->
  (candidates offset_min offset_max < fuel)%nat ->
  offset_min <= offset <= offset_max ->
  exists st1 st2,
    run (mbedtls_ct_memcpy_offset cfg dest src offset offset_min offset_max
                                  len) fuel m = Some (tt, st1)
    /\ run (mbedtls_ct_memcpy_if cfg MBEDTLS_CT_TRUE dest (src + offset) NULL
                                 len) fuel m = Some (tt, st2)
    /\ mem_eq (st_mem st1) (st_mem st2).
Proof.
  intros Hlen Hmin Hsrc Hcan Hfuel Hcand Hin.
  assert (Hmax : offset_max < SIZE_MAX)
    by (unfold object_size, PTRDIFF_MAX, SIZE_MAX in *; lia).
  destruct (memcpy_offset_spec cfg dest src offset offset_min offset_max len
              Hlen Hmin Hmax fuel (mkState m []) Hfuel Hcand)
    as (st1 & Hrun1 & _ & _ & _ & Hcp1).
  destruct (memcpy_if_spec cfg MBEDTLS_CT_TRUE dest (src + offset) NULL len
              Hlen fuel (mkState m []) Hfuel)
    as (st2 & Hrun2 & _ & _ & Hcp2).
  exists st1, st2. split; [exact Hrun1|]. split; [exact Hrun2|].
  eapply copied_unique; [apply Hcp1; assumption|].
  apply Hcp2. split; [left; reflexivity | exact Hcan].
Qed.

Lemma memcpy_offset_is_copy_from_offset_witness :
  object_size 5 /\ is_size_t 1 /\ object_size (4 + 5)
  /\ can_copy (200 + 3) 100 5 /\ (Z.to_nat 5 < 8)%nat
  /\ (candidates 1 4 < 8)%nat /\ 1 <= 3 <= 4
  /\ exists st1 st2,
      run (mbedtls_ct_memcpy_offset aarch64 100 200 3 1 4 5) 8
          (mem_of 200 [1; 2; 3; 4; 5; 6; 7; 8; 9]) = Some (tt, st1)
      /\ run (mbedtls_ct_memcpy_if aarch64 MBEDTLS_CT_TRUE 100 (200 + 3) NULL
                                   5) 8
             (mem_of 200 [1; 2; 3; 4; 5; 6; 7; 8; 9]) = Some (tt, st2)
      /\ mem_eq (st_mem st1) (st_mem st2).
Proof.
  assert (H5 : object_size 5) by (unfold object_size, PTRDIFF_MAX; lia).
  assert (H1 : is_size_t 1) by (unfold is_size_t, SIZE_MAX; lia).
  assert (H9 : object_size (4 + 5))
    by (unfold object_size, PTRDIFF_MAX; lia).
  assert (Hc : can_copy (200 + 3) 100 5) by (left; lia).
  assert (Hf : (Z.to_nat 5 < 8)%nat) by (simpl; lia).
  assert (Hk : (candidates 1 4 < 8)%nat) by (vm_compute; lia).
  assert (Hr : 1 <= 3 <= 4) by lia.
  repeat (split; [assumption|]).
  exact (memcpy_offset_is_copy_from_offset aarch64 100 200 3 1 4 5
           (mem_of 200 [1; 2; 3; 4; 5; 6; 7; 8; 9]) 8 H5 H1 H9 Hc Hf Hk Hr).
Defined.

(** X11.  A copy followed by a comparison finds the buffers equal: after
    [mbedtls_ct_memcpy_if] under a valid condition, [mbedtls_ct_memcmp] of
    the destination with the selected source returns zero, and so does the
    comparison with [src + offset] after [mbedtls_ct_memcpy_offset]; the
    source is the destination itself or a buffer apart from it. *)
Theorem copy_then_compare_equal (cfg : config)
        (c dest src1 src2 src offset offset_min offset_max len : Z) (m : mem)
        (fuel : nat) :
  object_size len -> is_size_t offset_min ->
  object_size (offset_max + len) ->
  (Z.to_nat len < fuel)%nat ->
  (candidates offset_min offset_max < fuel)%nat ->
  (is_condition c ->
   memcpy_if_source c dest src1 src2 = dest
   \/ memcpy_if_source c dest src1 src2 + len <= dest
   \/ dest + len <= memcpy_if_source c dest src1 src2 ->
   exists st',
     run (mbedtls_ct_memcpy_if cfg c dest src1 src2 len ;;
          mbedtls_ct_memcmp cfg dest (memcpy_if_source c dest src1 src2) len)
         fuel m = Some (0, st'))
  /\ (offset_min <= offset <= offset_max ->
      src + offset = dest \/ src + offset + len <= dest
      \/ dest + len <= src + offset ->
      exists st',
        run (mbedtls_ct_memcpy_offset cfg dest src offset offset_min
                                      offset_max len ;;
             mbedtls_ct_memcmp cfg dest (src + offset) len)
            fuel m = Some (0, st')).
Proof.
  intros Hlen Hmin Hsrc Hfuel Hcand.
  assert (Hmax : offset_max < SIZE_MAX)
    by (unfold object_size, PTRDIFF_MAX, SIZE_MAX in *; lia).
  split.
  - intros Hc Hsel.
    destruct (memcpy_if_spec cfg c dest src1 src2 len Hlen fuel
                (mkState m []) Hfuel) as (st1 & Hrun1 & _ & _ & Hcp).
    destruct (memcmp_spec cfg dest (memcpy_if_source c dest src1 src2) len
                Hlen fuel st1 Hfuel) as (r & st2 & Hrun2 & _ & _ & Hr).
    assert (r = 0) as ->.
    { apply Hr. eapply copied_agree; [exact Hsel|].
      apply Hcp. split; [assumption | unfold can_copy; lia]. }
    exists st2. unfold run.
    rewrite (bind_Some _ _ _ _ _ _ Hrun1). exact Hrun2.
  - intros Hin Hsel.
    destruct (memcpy_offset_spec cfg dest src offset offset_min offset_max
                len Hlen Hmin Hmax fuel (mkState m []) Hfuel Hcand)
      as (st1 & Hrun1 & _ & _ & _ & Hcp).
    destruct (memcmp_spec cfg dest (src + offset) len Hlen fuel st1 Hfuel)
      as (r & st2 & Hrun2 & _ & _ & Hr).
    assert (r = 0) as ->.
    { apply Hr. eapply copied_agree; [exact Hsel|].
      apply Hcp; [exact Hin | unfold can_copy; lia]. }
    exists st2. unfold run.
    rewrite (bind_Some _ _ _ _ _ _ Hrun1). exact Hrun2.
Qed.

Lemma copy_then_compare_equal_witness :
  object_size 5 /\ is_size_t 1 /\ object_size (4 + 5)
  /\ (Z.to_nat 5 < 8)%nat /\ (candidates 1 4 < 8)%nat
  /\ exists st',
      run (mbedtls_ct_memcpy_offset aarch64 100 200 3 1 4 5 ;;
           mbedtls_ct_memcmp aarch64 100 (200 + 3) 5) 8
          (mem_of 200 [1; 2; 3; 4; 5; 6; 7; 8; 9]) = Some (0, st').
Proof.
  assert (H5 : object_size 5) by (unfold object_size, PTRDIFF_MAX; lia).
  assert (H1 : is_size_t 1) by (unfold is_size_t, SIZE_MAX; lia).
  assert (H9 : object_size (4 + 5))
    by (unfold object_size, PTRDIFF_MAX; lia).
  assert (Hf : (Z.to_nat 5 < 8)%nat) by (simpl; lia).
  assert (Hk : (candidates 1 4 < 8)%nat) by (vm_compute; lia).
  repeat (split; [assumption|]).
  apply (proj2 (copy_then_compare_equal aarch64 MBEDTLS_CT_TRUE 100 300 NULL
                  200 3 1 4 5 (mem_of 200 [1; 2; 3; 4; 5; 6; 7; 8; 9]) 8
                  H5 H1 H9 Hf Hk)); lia.
Defined.

(** ** The number of memory accesses *)

Lemma accesses_app l1 l2 :
  accesses (l1 ++ l2) = (accesses l1 + accesses l2)%nat.
Proof. unfold accesses. now rewrite filter_app, length_app. Qed.

Lemma accesses_loop_events body i0 stride k c :
  (forall i, accesses (body i) = c) ->
  accesses (loop_events body i0 stride k) = (k * c)%nat.
Proof.
  intros Hb. induction k as [|k IH]; [reflexivity|].
  rewrite loop_events_S, accesses_app, IH.
  change (accesses (EvBranch true :: ?l)) with (accesses l).
  rewrite Hb. lia.
Qed.

Lemma accesses_loop_exit body i0 stride k c :
  (forall i, accesses (body i) = c) ->
  accesses (loop_exit body i0 stride k) = (k * c)%nat.
Proof.
  intros Hb. unfold loop_exit.
  rewrite accesses_app, (accesses_loop_events _ _ _ _ c Hb).
  cbn. lia.
Qed.

Lemma accesses_walk fast word_ev byte_ev len c :
  (forall i, accesses (word_ev i) = c) ->
  (forall i, accesses (byte_ev i) = c) ->
  0 <= len ->
  Z.of_nat (accesses (walk_events fast word_ev byte_ev len))
  = Z.of_nat c * walk_steps fast len.
Proof.
  intros Hw Hb Hlen. unfold walk_events, walk_steps. destruct fast.
  - rewrite accesses_app, (accesses_loop_exit _ _ _ _ c Hw),
      (accesses_loop_exit _ _ _ _ c Hb).
    rewrite Z.mod_eq by lia.
    assert (0 <= len / 4) by (apply Z.div_pos; lia).
    assert (0 <= len - 4 * (len / 4))
      by (Z.to_euclidean_division_equations; lia).
    nia.
  - rewrite (accesses_loop_exit _ _ _ _ c Hb). nia.
Qed.

(** X12.  [mbedtls_ct_memmove_left] performs [total * (3 * total - 1)] loads
    and stores, whatever the offset and the contents of the buffer: its cost
    is quadratic in the size of the buffer. *)
Theorem memmove_left_cost (start total : Z) (fuel : nat) :
  object_size total -> (Z.to_nat total < fuel)%nat ->
  forall offset m,
  exists t,
    leakage (mbedtls_ct_memmove_left start total offset) fuel m = Some t
    /\ Z.of_nat (accesses t) = total * (3 * total - 1).
Proof.
  intros Htotal Hfuel offset m.
  destruct (memmove_left_spec start total offset Htotal fuel (mkState m [])
                              Hfuel) as (st' & Hrun & _ & Ht & _).
  exists (memmove_left_events start total).
  split; [exact (leakage_emitted _ _ _ _ _ _ Hrun Ht)|].
  unfold memmove_left_events.
  destruct (Z.eq_dec total 0) as [-> | Hnz]; [reflexivity|].
  rewrite (accesses_loop_exit _ _ _ _ (Z.to_nat (3 * total - 1))).
  - unfold object_size in Htotal. nia.
  - intros i. unfold memmove_pass_events.
    rewrite accesses_app, (accesses_loop_exit _ _ _ _ 3%nat);
      [|reflexivity].
    cbn [accesses filter is_access length app]. unfold object_size in Htotal.
    lia.
Qed.

Lemma memmove_left_cost_witness :
  object_size 8 /\ (Z.to_nat 8 < 9)%nat
  /\ exists t,
      leakage (mbedtls_ct_memmove_left 100 8 3) 9
              (mem_of 100 [1; 2; 3; 4; 5; 6; 7; 8]) = Some t
      /\ Z.of_nat (accesses t) = 8 * (3 * 8 - 1).
Proof.
  assert (H8 : object_size 8) by (unfold object_size, PTRDIFF_MAX; lia).
  assert (Hf : (Z.to_nat 8 < 9)%nat) by (simpl; lia).
  split; [exact H8|]. split; [exact Hf|].
  exact (memmove_left_cost 100 8 9 H8 Hf 3
           (mem_of 100 [1; 2; 3; 4; 5; 6; 7; 8])).
Defined.

(** X13.  The other operations walk their buffers once, whatever the data:
    with [walk_steps] iterations over [len] bytes, [mbedtls_ct_memcmp] and
    [mbedtls_ct_zeroize_if] perform two accesses an iteration and
    [mbedtls_ct_memcpy_if] three, and [mbedtls_ct_memcpy_offset] performs
    the accesses of one conditional copy for each of its
    [offset_max - offset_min + 1] candidates, whichever offset is the real
    one. *)
Theorem walk_costs (cfg : config)
        (a b n dest src1 src2 len buf src offset_min offset_max : Z)
        (fuel : nat) :
  object_size n -> object_size len ->
  is_size_t offset_min -> object_size (offset_max + len) ->
  (Z.to_nat n < fuel)%nat -> (Z.to_nat len < fuel)%nat ->
  (candidates offset_min offset_max < fuel)%nat ->
  (forall m, exists t,
      leakage (mbedtls_ct_memcmp cfg a b n) fuel m = Some t
      /\ Z.of_nat (accesses t)
         = 2 * walk_steps (MBEDTLS_EFFICIENT_UNALIGNED_VOLATILE_ACCESS cfg)
                          n)
  /\ (forall c m, exists t,
         leakage (mbedtls_ct_zeroize_if cfg c buf len) fuel m = Some t
         /\ Z.of_nat (accesses t)
            = 2 * walk_steps (MBEDTLS_EFFICIENT_UNALIGNED_ACCESS cfg) len)
  /\ (forall c m, exists t,
         leakage (mbedtls_ct_memcpy_if cfg c dest src1 src2 len) fuel m
         = Some t
         /\ Z.of_nat (accesses t)
            = 3 * walk_steps (MBEDTLS_EFFICIENT_UNALIGNED_ACCESS cfg) len)
  /\ (forall offset m, exists t,
         leakage (mbedtls_ct_memcpy_offset cfg dest src offset offset_min
                                           offset_max len) fuel m = Some t
         /\ Z.of_nat (accesses t)
            = Z.of_nat (candidates offset_min offset_max)
              * (3 * walk_steps (MBEDTLS_EFFICIENT_UNALIGNED_ACCESS cfg)
                                len)).
Proof.
  intros Hn Hlen Hmin Hsrc Hfn Hfl Hfc.
  assert (Hmax : offset_max < SIZE_MAX)
    by (unfold object_size, PTRDIFF_MAX, SIZE_MAX in *; lia).
  assert (Hcopy : forall p q r,
             Z.of_nat (accesses (memcpy_if_events cfg p q r len))
             = 3 * walk_steps (MBEDTLS_EFFICIENT_UNALIGNED_ACCESS cfg) len).
  { intros p q r. unfold memcpy_if_events.
    change (accesses (EvBranch ?x :: ?l)) with (accesses l).
    rewrite (accesses_walk _ _ _ _ 3%nat);
      [reflexivity | reflexivity | reflexivity | apply Hlen]. }
  split; [|split; [|split]].
  - intros m.
    destruct (memcmp_spec cfg a b n Hn fuel (mkState m []) Hfn)
      as (r & st' & Hrun & _ & Ht & _).
    eexists. split; [exact (leakage_emitted _ _ _ _ _ _ Hrun Ht)|].
    unfold memcmp_events.
    rewrite (accesses_walk _ _ _ _ 2%nat);
      [reflexivity | reflexivity | reflexivity | apply Hn].
  - intros c m.
    destruct (zeroize_if_spec cfg c buf len Hlen fuel (mkState m []) Hfl)
      as (st' & Hrun & _ & Ht & _).
    eexists. split; [exact (leakage_emitted _ _ _ _ _ _ Hrun Ht)|].
    unfold zeroize_if_events.
    rewrite (accesses_walk _ _ _ _ 2%nat);
      [reflexivity | reflexivity | reflexivity | apply Hlen].
  - intros c m.
    destruct (memcpy_if_spec cfg c dest src1 src2 len Hlen fuel
                             (mkState m []) Hfl) as (st' & Hrun & _ & Ht & _).
    eexists. split; [exact (leakage_emitted _ _ _ _ _ _ Hrun Ht)|].
    apply Hcopy.
  - intros offset m.
    destruct (memcpy_offset_spec cfg dest src offset offset_min offset_max
                len Hlen Hmin Hmax fuel (mkState m []) Hfl Hfc)
      as (st' & Hrun & _ & Ht & _).
    eexists. split; [exact (leakage_emitted _ _ _ _ _ _ Hrun Ht)|].
    unfold memcpy_offset_events.
    rewrite (accesses_loop_exit _ _ _ _
               (accesses (memcpy_if_events cfg dest src NULL len))).
    + rewrite Nat2Z.inj_mul, Hcopy. reflexivity.
    + intros v. apply Nat2Z.inj. now rewrite !Hcopy.
Qed.

Lemma walk_costs_witness :
  object_size 5 /\ object_size 6 /\ is_size_t 1 /\ object_size (4 + 6)
  /\ (Z.to_nat 5 < 9)%nat /\ (Z.to_nat 6 < 9)%nat
  /\ (candidates 1 4 < 9)%nat
  /\ forall offset m, exists t,
      leakage (mbedtls_ct_memcpy_offset portable 100 200 offset 1 4 6) 9 m
      = Some t
      /\ Z.of_nat (accesses t)
         = Z.of_nat (candidates 1 4)
           * (3 * walk_steps (MBEDTLS_EFFICIENT_UNALIGNED_ACCESS portable) 6).
Proof.
  assert (H5 : object_size 5) by (unfold object_size, PTRDIFF_MAX; lia).
  assert (H6 : object_size 6) by (unfold object_size, PTRDIFF_MAX; lia).
  assert (H1 : is_size_t 1) by (unfold is_size_t, SIZE_MAX; lia).
  assert (H10 : object_size (4 + 6))
    by (unfold object_size, PTRDIFF_MAX; lia).
  assert (Hf5 : (Z.to_nat 5 < 9)%nat) by (simpl; lia).
  assert (Hf6 : (Z.to_nat 6 < 9)%nat) by (simpl; lia).
  assert (Hk : (candidates 1 4 < 9)%nat) by (vm_compute; lia).
  repeat (split; [assumption|]).
  exact (proj2 (proj2 (proj2
           (walk_costs portable 300 400 5 100 500 NULL 6 600 200 1 4 9
                       H5 H6 H1 H10 Hf5 Hf6 Hk)))).
Defined.

(** ** mbedtls_ct_memcpy_if under a condition of any value *)

Lemma merge_testbit c x y j :
  0 <= j < 8 ->
  Z.testbit
    (uchar (Z.lor (Z.land x (uint32_t c))
                  (Z.land y (uint32_t
                               (lnot64 (mbedtls_ct_compiler_opaque c))))))
    j
  = if Z.testbit c j then Z.testbit x j else Z.testbit y j.
Proof.
  intros Hj. unfold uchar. rewrite Z.mod_pow2_bits_low by lia.
  rewrite Z.lor_spec, !Z.land_spec, !testbit_uint32 by lia.
  unfold lnot64, mbedtls_ct_compiler_opaque. rewrite Z.lxor_spec.
  change (2 ^ 64 - 1) with (Z.ones 64). rewrite Z.ones_spec_low by lia.
  destruct (Z.testbit c j), (Z.testbit x j), (Z.testbit y j); reflexivity.
Qed.

Section MemcpyIfAnyCondition.
Variables (cfg : config) (condition dest src1 src2 len : Z).
Hypothesis Hlen : object_size len.
Hypothesis Hsrc1 : can_copy src1 dest len.
Hypothesis Hsrc2 : can_copy (memcpy_if_src2 dest src2) dest len.

Local Abbreviation the_src2 := (memcpy_if_src2 dest src2).

Lemma merged_byte m0 m i :
  0 <= i < len ->
  merged condition src1 the_src2 dest i m0 m ->
  merged condition src1 the_src2 dest (i + 1) m0
    (mem_set m (dest + i)
       (Z.lor (Z.land (byte_at m (src1 + i)) (uint32_t condition))
              (Z.land (byte_at m (the_src2 + i))
                      (uint32_t (lnot64
                                   (mbedtls_ct_compiler_opaque condition)))))).
Proof.
  intros Hi H a. unfold can_copy in Hsrc1, Hsrc2.
  rewrite byte_at_mem_set, (H (src1 + i)), (H (the_src2 + i)), (H a).
  destruct (Z.eqb_spec a (dest + i)) as [-> | Ha].
  - replace (dest + i - dest) with i by lia.
    zbool; try lia; reflexivity.
  - zbool; try lia; reflexivity.
Qed.

Lemma memcpy_if_byte_loop_merged fuel st :
  (Z.to_nat len < fuel)%nat ->
  exists st',
    for_loop (fun i => i <? len)
             (fun i =>
                x <- load8 (src1 + i) ;;
                y <- load8 (the_src2 + i) ;;
                store8 (dest + i)
                       (Z.lor (Z.land x (uint32_t condition))
                              (Z.land y
                                 (uint32_t
                                    (lnot64 (mbedtls_ct_compiler_opaque
                                               condition))))) ;;
                ret (size_t (i + 1)))
             0 fuel st = Some (len, st')
    /\ merged condition src1 the_src2 dest len (st_mem st) (st_mem st').
Proof.
  intros Hfuel. unfold object_size, PTRDIFF_MAX in Hlen.
  loop_rule
    (fun (i : Z) st' =>
       0 <= i <= len
       /\ merged condition src1 the_src2 dest i (st_mem st) (st_mem st'))
    (fun i : Z => Z.to_nat (len - i)).
  - intros i st1 (Hi & Hm) Hc. apply Z.ltb_lt in Hc.
    eexists _, _. split; [mrun; reflexivity|].
    cbn [st_mem log].
    rewrite size_t_small by (unfold SIZE_MAX; lia).
    split; [|lia]. split; [lia|].
    apply merged_byte; [lia | assumption].
  - split; [lia|]. intros a. zbool; lia || reflexivity.
  - lia.
  - destruct Hloop as (i & st' & Hrun & (Hi & Hm) & Hc).
    apply Z.ltb_ge in Hc. assert (i = len) as -> by lia.
    exists (log (EvBranch false) st'). split; assumption.
Qed.
End MemcpyIfAnyCondition.

(** X14.  In a build without the word-wide loop, [mbedtls_ct_memcpy_if]
    under a condition of any value, valid or not, merges its sources bit by
    bit: bit [j] of each byte written comes from [src1] where bit [j] of the
    condition is set and from [src2] (or [dest], for [src2 = NULL]) where it
    is clear.  So the truth value 1 selects bit 0 of [src1] only. *)
Theorem memcpy_if_merges_bits (cfg : config) (c dest src1 src2 len : Z)
        (m : mem) (fuel : nat) :
  MBEDTLS_EFFICIENT_UNALIGNED_ACCESS cfg = false ->
  object_size len ->
  can_copy src1 dest len -> can_copy (memcpy_if_src2 dest src2) dest len ->
  (Z.to_nat len < fuel)%nat ->
  exists st',
    run (mbedtls_ct_memcpy_if cfg c dest src1 src2 len) fuel m
    = Some (tt, st')
    /\ forall i j, 0 <= i < len -> 0 <= j < 8 ->
         Z.testbit (byte_at (st_mem st') (dest + i)) j
         = if Z.testbit c j
           then Z.testbit (byte_at m (src1 + i)) j
           else Z.testbit (byte_at m (memcpy_if_src2 dest src2 + i)) j.
Proof.
  intros Hcfg Hlen H1 H2 Hfuel.
  unfold run, mbedtls_ct_memcpy_if. rewrite Hcfg.
  rewrite (bind_Some _ _ _ _ (src2 =? NULL)
                     (log (EvBranch (src2 =? NULL)) (mkState m [])) eq_refl).
  cbv beta zeta. fold (memcpy_if_src2 dest src2).
  rewrite (bind_Some _ _ _ _ 0 (log (EvBranch (src2 =? NULL)) (mkState m []))
                     eq_refl).
  destruct (memcpy_if_byte_loop_merged c dest src1 src2 len Hlen H1 H2 fuel
              (log (EvBranch (src2 =? NULL)) (mkState m [])) Hfuel)
    as (st' & Hrun & Hm).
  rewrite (bind_Some _ _ _ _ _ _ Hrun).
  exists st'. split; [reflexivity|].
  intros i j Hi Hj. cbn [st_mem log] in Hm. rewrite (Hm (dest + i)).
  replace (dest + i - dest) with i by lia.
  zbool; try lia. now apply merge_testbit.
Qed.

Lemma memcpy_if_merges_bits_witness :
  MBEDTLS_EFFICIENT_UNALIGNED_ACCESS portable = false
  /\ object_size 2 /\ can_copy 200 100 2
  /\ can_copy (memcpy_if_src2 100 300) 100 2 /\ (Z.to_nat 2 < 3)%nat
  /\ exists st',
      run (mbedtls_ct_memcpy_if portable 1 100 200 300 2) 3
          (fun a => if a <? 250 then 255 else 0) = Some (tt, st')
      /\ Z.testbit (byte_at (st_mem st') (100 + 1)) 0 = true
      /\ Z.testbit (byte_at (st_mem st') (100 + 1)) 1 = false.
Proof.
  assert (Hc : MBEDTLS_EFFICIENT_UNALIGNED_ACCESS portable = false)
    by reflexivity.
  assert (H2 : object_size 2) by (unfold object_size, PTRDIFF_MAX; lia).
  assert (Hs1 : can_copy 200 100 2) by (left; lia).
  assert (Hs2 : can_copy (memcpy_if_src2 100 300) 100 2)
    by (left; vm_compute; discriminate).
  assert (Hf : (Z.to_nat 2 < 3)%nat) by (simpl; lia).
  repeat (split; [assumption|]).
  destruct (memcpy_if_merges_bits portable 1 100 200 300 2
              (fun a => if a <? 250 then 255 else 0) 3 Hc H2 Hs1 Hs2 Hf)
    as (st' & Hrun & Hb).
  exists st'. split; [exact Hrun|].
  split; [rewrite (Hb 1 0) | rewrite (Hb 1 1)]; try lia; reflexivity.
Defined.

(** ** Comparing in two parts *)

Lemma agree_shift a b m n1 n2 :
  agree a b m n1 (n1 + n2) <-> agree (a + n1) (b + n1) m 0 n2.
Proof.
  unfold agree. split; intros H j Hj.
  - rewrite <- !Z.add_assoc. apply H. lia.
  - replace j with (n1 + (j - n1)) by lia. rewrite !Z.add_assoc.
    apply H. lia.
Qed.

(** X15.  A comparison can be done in two parts: [mbedtls_ct_memcmp] over
    [n1 + n2] bytes returns zero exactly when it returns zero both over the
    first [n1] bytes and over the [n2] bytes that follow them. *)
Theorem memcmp_in_two_parts (cfg : config) (a b n1 n2 : Z) (m : mem)
        (fuel : nat) :
  object_size n1 -> object_size n2 -> object_size (n1 + n2) ->
  (Z.to_nat (n1 + n2) < fuel)%nat ->
  exists r r1 r2 st st1 st2,
    run (mbedtls_ct_memcmp cfg a b (n1 + n2)) fuel m = Some (r, st)
    /\ run (mbedtls_ct_memcmp cfg a b n1) fuel m = Some (r1, st1)
    /\ run (mbedtls_ct_memcmp cfg (a + n1) (b + n1) n2) fuel m
       = Some (r2, st2)
    /\ (r = 0 <-> r1 = 0 /\ r2 = 0).
Proof.
  intros H1 H2 H12 Hfuel.
  pose proof H1 as H1'. pose proof H2 as H2'. unfold object_size in H1', H2'.
  destruct (memcmp_spec cfg a b (n1 + n2) H12 fuel (mkState m []) Hfuel)
    as (r & st & Hrun & _ & _ & Hr).
  destruct (memcmp_spec cfg a b n1 H1 fuel (mkState m []))
    as (r1 & st1 & Hrun1 & _ & _ & Hr1); [lia|].
  destruct (memcmp_spec cfg (a + n1) (b + n1) n2 H2 fuel (mkState m []))
    as (r2 & st2 & Hrun2 & _ & _ & Hr2); [lia|].
  exists r, r1, r2, st, st1, st2.
  split; [exact Hrun|]. split; [exact Hrun1|]. split; [exact Hrun2|].
  rewrite Hr, Hr1, Hr2. cbn [st_mem].
  rewrite (agree_split a b m 0 n1 (n1 + n2)) by lia.
  now rewrite agree_shift.
Qed.

Lemma memcmp_in_two_parts_witness :
  object_size 5 /\ object_size 3 /\ object_size (5 + 3)
  /\ (Z.to_nat (5 + 3) < 9)%nat
  /\ exists r r1 r2 st st1 st2,
      run (mbedtls_ct_memcmp aarch64 100 200 (5 + 3)) 9
          (mem_of 100 [1; 2; 3; 4; 5; 6; 7; 8]) = Some (r, st)
      /\ run (mbedtls_ct_memcmp aarch64 100 200 5) 9
             (mem_of 100 [1; 2; 3; 4; 5; 6; 7; 8]) = Some (r1, st1)
      /\ run (mbedtls_ct_memcmp aarch64 (100 + 5) (200 + 5) 3) 9
             (mem_of 100 [1; 2; 3; 4; 5; 6; 7; 8]) = Some (r2, st2)
      /\ (r = 0 <-> r1 = 0 /\ r2 = 0).
Proof.
  assert (H5 : object_size 5) by (unfold object_size, PTRDIFF_MAX; lia).
  assert (H3 : object_size 3) by (unfold object_size, PTRDIFF_MAX; lia).
  assert (H8 : object_size (5 + 3))
    by (unfold object_size, PTRDIFF_MAX; lia).
  assert (Hf : (Z.to_nat (5 + 3) < 9)%nat) by (simpl; lia).
  repeat (split; [assumption|]).
  exact (memcmp_in_two_parts aarch64 100 200 5 3
           (mem_of 100 [1; 2; 3; 4; 5; 6; 7; 8]) 9 H5 H3 H8 Hf).
Defined.
